(** * openpanel: the API proxy route [apps/start/src/routes/api/op.$.tsx]

    The route exports one handler, [proxyRequest], bound to six HTTP
    methods.  It resolves a base URL from the process environment, rewrites
    the inbound path, forwards the request with [fetch] and relays the
    answer.  The handler is embedded below statement by statement; the
    platform objects it touches ([process.env], [URL], [Headers],
    [Request], [Response], [fetch], [console]) are modelled after the
    ECMAScript, WHATWG URL, Encoding and Fetch standards as server runtimes
    implement them. *)

From Stdlib Require Import ZArith Ascii String List Lia Strings.Byte Sorted.
From stdpp Require Import gmap strings list.
Import ListNotations.
Local Open Scope string_scope.
Local Open Scope Z_scope.

(** ** ECMAScript values used by the handler *)

Module Js.

(** The double quote, written by its code so that no literal has to
    escape it. *)
Definition dquote : ascii := "034"%char.
Definition backslash : ascii := "092"%char.

(** [process.env.X] is [undefined] or a string.  [truthy] is ToBoolean on
    such a value: [undefined] and the empty string are falsy. *)
Definition truthy (v : option string) : bool :=
  match v with
  | None => false
  | Some s => negb (String.eqb s "")
  end.

(** [a || b] *)
Definition or (a b : option string) : option string :=
  if truthy a then a else b.

(** [String.prototype.toLowerCase] on the ASCII range, which is all a
    header name can hold. *)
Definition lower_ascii (c : ascii) : ascii :=
  let n := N_of_ascii c in
  if ((65 <=? n) && (n <=? 90))%N then ascii_of_N (n + 32) else c.

Fixpoint toLowerCase (s : string) : string :=
  match s with
  | "" => ""
  | String c s' => String (lower_ascii c) (toLowerCase s')
  end.

(** [Array.prototype.includes] on an array of strings. *)
Definition includes (xs : list string) (x : string) : bool :=
  existsb (String.eqb x) xs.

Fixpoint join (sep : string) (xs : list string) : string :=
  match xs with
  | [] => ""
  | [x] => x
  | x :: rest => x +:+ sep +:+ join sep rest
  end.

(** [s.includes(needle)] *)
Fixpoint contains (needle s : string) : bool :=
  String.prefix needle s ||
  match s with
  | "" => false
  | String _ s' => contains needle s'
  end.

(** QuoteJSONString of ECMA-262 (24.5.2.3) on byte strings. *)
Definition hex_digit (n : N) : ascii :=
  if (n <? 10)%N then ascii_of_N (48 + n) else ascii_of_N (87 + n).

Definition quote_char (c : ascii) : string :=
  let n := N_of_ascii c in
  if (n =? 8)%N then String backslash "b"
  else if (n =? 9)%N then String backslash "t"
  else if (n =? 10)%N then String backslash "n"
  else if (n =? 12)%N then String backslash "f"
  else if (n =? 13)%N then String backslash "r"
  else if (n =? 34)%N then String backslash (String dquote "")
  else if (n =? 92)%N then String backslash (String backslash "")
  else if (n <? 32)%N then
    String backslash ("u00" +:+ String (hex_digit (n / 16)) (String (hex_digit (n mod 16)) ""))
  else String c "".

Fixpoint quote_chars (s : string) : string :=
  match s with
  | "" => ""
  | String c s' => quote_char c +:+ quote_chars s'
  end.

Definition QuoteJSONString (s : string) : string :=
  String dquote (quote_chars s) +:+ String dquote "".

(** [JSON.stringify] of an object literal whose properties are strings,
    given as its properties in creation order. *)
Definition JSON_stringify (o : list (string * string)) : string :=
  "{" +:+ join "," (map (fun '(k, v) => QuoteJSONString k +:+ ":" +:+ QuoteJSONString v) o) +:+ "}".

(** [Object.fromEntries]: each entry defines its key, a later entry
    replacing an earlier one with the same key. *)
Definition Object_fromEntries (entries : list (string * string)) : gmap string string :=
  fold_left (fun o '(k, v) => <[k := v]> o) entries ∅.

(** Errors that reach the handler's [catch]. *)
Inductive Error :=
| TypeError (message : string)
| RangeError (message : string)
| DOMException (name message : string).

End Js.

(** ** The regular expression of line 31

    [s.replace(/^\/api\/op\/?/, '')]: the pattern is anchored at the start
    of the string, matches the literal [/api/op] and then, greedily, one
    optional slash; the match, if any, is replaced by the empty string. *)

Module Regex.

Fixpoint match_literal (lit s : string) : option string :=
  match lit, s with
  | "", _ => Some s
  | String a lit', String b s' =>
      if Ascii.eqb a b then match_literal lit' s' else None
  | String _ _, "" => None
  end.

Definition match_optional (c : ascii) (s : string) : string :=
  match s with
  | String b s' => if Ascii.eqb b c then s' else s
  | "" => s
  end.

Definition replace_api_op (s : string) : string :=
  match match_literal "/api/op" s with
  | Some rest => match_optional "/" rest
  | None => s
  end.

End Regex.

(** ** UTF-8, as [Body.text()] and body extraction use it *)

Module Encoding.

(** A string obtained by decoding is a sequence of scalar values. *)
Definition Text := list Z.

Definition byte_val (b : byte) : Z := Z.of_N (Byte.to_N b).

Definition to_byte (z : Z) : byte :=
  match Byte.of_N (Z.to_N (z mod 256)) with
  | Some b => b
  | None => x00
  end.

Definition replacement : Z := 0xFFFD.

(** State of the WHATWG UTF-8 decoder. *)
Record Decoder := {
  code_point : Z;
  bytes_seen : Z;
  bytes_needed : Z;
  lower_boundary : Z;
  upper_boundary : Z;
}.

Definition initial : Decoder :=
  {| code_point := 0; bytes_seen := 0; bytes_needed := 0;
     lower_boundary := 0x80; upper_boundary := 0xBF |}.

(** A byte read while no sequence is open: it is an ASCII code point, a
    lead byte, or an error. *)
Definition lead (b : Z) : list Z * Decoder :=
  if (b <=? 0x7F) then ([b], initial)
  else if (0xC2 <=? b) && (b <=? 0xDF) then
    ([], {| code_point := Z.land b 0x1F; bytes_seen := 0; bytes_needed := 1;
            lower_boundary := 0x80; upper_boundary := 0xBF |})
  else if (0xE0 <=? b) && (b <=? 0xEF) then
    ([], {| code_point := Z.land b 0xF; bytes_seen := 0; bytes_needed := 2;
            lower_boundary := if b =? 0xE0 then 0xA0 else 0x80;
            upper_boundary := if b =? 0xED then 0x9F else 0xBF |})
  else if (0xF0 <=? b) && (b <=? 0xF4) then
    ([], {| code_point := Z.land b 0x7; bytes_seen := 0; bytes_needed := 3;
            lower_boundary := if b =? 0xF0 then 0x90 else 0x80;
            upper_boundary := if b =? 0xF4 then 0x8F else 0xBF |})
  else ([replacement], initial).

(** One byte through the decoder with error mode "replacement": the code
    points it yields and the next state.  A byte outside the boundaries
    ends the open sequence with an error and is read again as a lead
    byte. *)
Definition step (d : Decoder) (b : Z) : list Z * Decoder :=
  if bytes_needed d =? 0 then lead b
  else if negb ((lower_boundary d <=? b) && (b <=? upper_boundary d)) then
    let '(out, d') := lead b in (replacement :: out, d')
  else
    let cp := Z.lor (Z.shiftl (code_point d) 6) (Z.land b 0x3F) in
    if bytes_seen d + 1 =? bytes_needed d then ([cp], initial)
    else
      ([], {| code_point := cp; bytes_seen := bytes_seen d + 1;
              bytes_needed := bytes_needed d;
              lower_boundary := 0x80; upper_boundary := 0xBF |}).

(** End of input: an open sequence is an error. *)
Definition finish (d : Decoder) : list Z :=
  if bytes_needed d =? 0 then [] else [replacement].

Fixpoint run_decoder (d : Decoder) (bs : list byte) : Text :=
  match bs with
  | [] => finish d
  | x :: rest =>
      let '(out, d') := step d (byte_val x) in (out ++ run_decoder d' rest)%list
  end.

(** The output and the state after some bytes, more input pending. *)
Fixpoint feed (d : Decoder) (bs : list byte) : list Z * Decoder :=
  match bs with
  | [] => ([], d)
  | x :: rest =>
      let '(out, d') := step d (byte_val x) in
      let '(out', d'') := feed d' rest in ((out ++ out')%list, d'')
  end.

(** "UTF-8 decode": a leading byte order mark is dropped. *)
Definition utf8_decode (bs : list byte) : Text :=
  match bs with
  | xef :: xbb :: xbf :: rest => run_decoder initial rest
  | _ => run_decoder initial bs
  end.

Definition encode_scalar (c : Z) : list byte :=
  if c <=? 0x7F then [to_byte c]
  else if c <=? 0x7FF then
    [to_byte (Z.lor 0xC0 (Z.shiftr c 6)); to_byte (Z.lor 0x80 (Z.land c 0x3F))]
  else if c <=? 0xFFFF then
    [to_byte (Z.lor 0xE0 (Z.shiftr c 12));
     to_byte (Z.lor 0x80 (Z.land (Z.shiftr c 6) 0x3F));
     to_byte (Z.lor 0x80 (Z.land c 0x3F))]
  else
    [to_byte (Z.lor 0xF0 (Z.shiftr c 18));
     to_byte (Z.lor 0x80 (Z.land (Z.shiftr c 12) 0x3F));
     to_byte (Z.lor 0x80 (Z.land (Z.shiftr c 6) 0x3F));
     to_byte (Z.lor 0x80 (Z.land c 0x3F))].

(** "UTF-8 encode" *)
Definition utf8_encode (t : Text) : list byte := flat_map encode_scalar t.

(** Unicode scalar values: the code points that are not surrogates. *)
Definition scalar (c : Z) : bool :=
  ((0 <=? c) && (c <=? 0xD7FF)) || ((0xE000 <=? c) && (c <=? 0x10FFFF)).
End Encoding.

(** ** Fetch standard objects *)

(** [new URL(request.url)].  [request.url] is always a serialized absolute
    URL, so parsing it cannot fail; the record holds the two components the
    handler reads. *)
Module URL.
Record t := { pathname : string; search : string }.
End URL.

(** A [Headers] object is a header list: (name, value) pairs in insertion
    order.  Names match byte-case-insensitively; iteration goes through
    "sort and combine".  Server runtimes enforce no forbidden header
    names, and the values read back from a [Headers] object are already
    normalized and valid, so [append] and [set] never reject them. *)
Module Headers.

Definition t := list (string * string).

Definition empty : t := [].

Definition name_is (name : string) (h : string * string) : bool :=
  String.eqb (Js.toLowerCase (fst h)) (Js.toLowerCase name).

Definition has (l : t) (name : string) : bool := existsb (name_is name) l.

(** The values of all headers called [name], in order. *)
Definition values (l : t) (name : string) : list string :=
  map snd (List.filter (name_is name) l).

(** [headers.get(name)]: the values joined by comma and space. *)
Definition get (l : t) (name : string) : option string :=
  match values l name with
  | [] => None
  | vs => Some (Js.join ", " vs)
  end.

(** [headers.append(name, value)]: a name already present keeps the
    spelling of its first header. *)
Definition append (l : t) (name value : string) : t :=
  let name' :=
    match List.find (name_is name) l with
    | Some h => fst h
    | None => name
    end in
  (l ++ [(name', value)])%list.

Fixpoint set_first (name value : string) (l : t) : t :=
  match l with
  | [] => []
  | h :: rest =>
      if name_is name h
      then (fst h, value) :: List.filter (fun h' => negb (name_is name h')) rest
      else h :: set_first name value rest
  end.

(** [headers.set(name, value)]: the first header called [name] takes the
    value and the others are removed; a new name is appended. *)
Definition set (l : t) (name value : string) : t :=
  if has l name then set_first name value l else (l ++ [(name, value)])%list.

(** "Convert header names to a sorted-lowercase set". *)
Fixpoint insert_name (x : string) (names : list string) : list string :=
  match names with
  | [] => [x]
  | y :: rest =>
      match String.compare x y with
      | Lt => x :: names
      | Eq => names
      | Gt => y :: insert_name x rest
      end
  end.

Definition sorted_lowercase_names (l : t) : list string :=
  fold_right insert_name [] (map (fun h => Js.toLowerCase (fst h)) l).

(** "Sort and combine": one entry per name with the combined value,
    except [set-cookie], whose values stay separate entries. *)
Definition entries_of (l : t) (name : string) : list (string * string) :=
  if String.eqb name "set-cookie" then map (pair name) (values l name)
  else
    match get l name with
    | Some value => [(name, value)]
    | None => []
    end.

Definition sort_and_combine (l : t) : list (string * string) :=
  flat_map (entries_of l) (sorted_lowercase_names l).

(** [headers.entries()] *)
Definition entries (l : t) : list (string * string) := sort_and_combine l.

(** [headers.forEach(callback)], the callback's effect on the variables
    it closes over being threaded as an accumulator. *)
Definition forEach {A} (l : t) (callback : string -> string -> A -> A) (acc : A) : A :=
  fold_left (fun a '(key, value) => callback value key a) (sort_and_combine l) acc.

(** A [HeadersInit]: a record literal (its properties in order) or
    another [Headers] object, which is read through its iterator. *)
Inductive Init :=
| of_record (properties : list (string * string))
| of_Headers (h : t).

Definition fill (l : t) (init : Init) : t :=
  let pairs :=
    match init with
    | of_record properties => properties
    | of_Headers h => sort_and_combine h
    end in
  fold_left (fun acc '(name, value) => append acc name value) pairs l.

End Headers.

Module Body.
(** A [ReadableStream] of bytes, given by the chunks it yields. *)
Definition ReadableStream := list (list byte).

(** The body sources the handler uses: a string or a stream. *)
Inductive Init :=
| of_string (s : string)
| of_stream (stream : ReadableStream).

(** The code units of a string whose characters all lie below 256. *)
Definition code_units (s : string) : Encoding.Text :=
  map (fun c => Z.of_N (N_of_ascii c)) (list_ascii_of_string s).

(** "Extract a body": a string is UTF-8 encoded and typed as text; a
    stream is taken as it is and has no type. *)
Definition extract (b : Init) : ReadableStream * option string :=
  match b with
  | of_string s => ([Encoding.utf8_encode (code_units s)], Some "text/plain;charset=UTF-8")
  | of_stream stream => (stream, None)
  end.
End Body.

Module Request.
(** The inbound [Request] as the router hands it over: its body, if any,
    has not been read yet. *)
Record t := {
  method : string;
  url : URL.t;
  headers : Headers.t;
  body : option (list byte);
}.

(** [await request.text()]: the whole body, UTF-8 decoded; the empty
    string when there is no body. *)
Definition text (r : t) : Encoding.Text :=
  match body r with
  | Some bytes => Encoding.utf8_decode bytes
  | None => []
  end.
End Request.

(** The second argument of [fetch]. *)
Module RequestInit.
Record t := {
  method : string;
  headers : gmap string string;
  body : option Encoding.Text;
}.

(** The bytes [fetch] sends for this body: a string body is UTF-8
    encoded. *)
Definition sent_bytes (i : t) : option (list byte) :=
  Encoding.utf8_encode <$> body i.
End RequestInit.

Module Response.
(** [body] is the [response.body] getter: a stream, or [null]. *)
Record t := {
  status : Z;
  statusText : string;
  headers : Headers.t;
  body : option Body.ReadableStream;
}.

Record Init := {
  init_status : option Z;
  init_statusText : option string;
  init_headers : option Headers.Init;
}.

Definition null_body_status (s : Z) : bool :=
  existsb (Z.eqb s) [101; 103; 204; 205; 304].

(** The reason-phrase production: HTAB, SP, VCHAR and obs-text. *)
Definition reason_phrase_char (c : ascii) : bool :=
  let n := N_of_ascii c in
  ((n =? 9) || (n =? 32) || ((33 <=? n) && (n <=? 126)) || ((128 <=? n) && (n <=? 255)))%N.

Fixpoint reason_phrase (s : string) : bool :=
  match s with
  | "" => true
  | String c s' => reason_phrase_char c && reason_phrase s'
  end.

(** [new Response(body, init)], "initialize a response": the status must
    lie in 200..599 (RangeError), the status text must be a reason
    phrase, and a null body status takes no body (TypeError).  A body
    with a type adds [Content-Type] unless the headers have one. *)
Definition new (b : option Body.Init) (init : Init) : Js.Error + t :=
  let status := default 200 (init_status init) in
  let statusText := default "" (init_statusText init) in
  if negb ((200 <=? status) && (status <=? 599)) then
    inl (Js.RangeError "init[status] must be in the range of 200 to 599, inclusive.")
  else if negb (reason_phrase statusText) then
    inl (Js.TypeError "Invalid statusText")
  else
    let headers :=
      match init_headers init with
      | Some hs => Headers.fill Headers.empty hs
      | None => Headers.empty
      end in
    match b with
    | None =>
        inr {| status := status; statusText := statusText; headers := headers; body := None |}
    | Some source =>
        let '(stream, type) := Body.extract source in
        if null_body_status status then inl (Js.TypeError "Invalid response status code")
        else
          let headers' :=
            match type with
            | Some type =>
                if Headers.has headers "Content-Type" then headers
                else Headers.append headers "Content-Type" type
            | None => headers
            end in
          inr {| status := status; statusText := statusText; headers := headers';
                 body := Some stream |}
    end.
End Response.

(** ** Effects

    The handler logs to the console and calls [fetch]; both are recorded,
    in order, in a trace.  A computation ends normally or throws, and what
    it did before throwing stays in the trace. *)

Inductive Event :=
| console_log (message : string)
| console_error (message : string) (error : Js.Error)
| fetch_call (input : string) (init : RequestInit.t).

Definition Trace := list Event.

Definition M (A : Type) : Type := Trace -> (Js.Error + A) * Trace.

Definition ret {A} (a : A) : M A := fun tr => (inr a, tr).

Definition bind {A B} (c : M A) (k : A -> M B) : M B :=
  fun tr =>
    match c tr with
    | (inr a, tr') => k a tr'
    | (inl e, tr') => (inl e, tr')
    end.

(** [try { c } catch (error) { handler }] *)
Definition try_catch {A} (c : M A) (handler : Js.Error -> M A) : M A :=
  fun tr =>
    match c tr with
    | (inr a, tr') => (inr a, tr')
    | (inl e, tr') => handler e tr'
    end.

Definition emit (ev : Event) : M unit := fun tr => (inr tt, (tr ++ [ev])%list).

(** A platform call that returns or throws without further effect. *)
Definition lift {A} (r : Js.Error + A) : M A := fun tr => (r, tr).

Notation "'let*' x ':=' c 'in' k" := (bind c (fun x => k))
  (at level 10, x name, c at level 100, k at level 200).
Notation "c ';;' k" := (bind c (fun _ => k))
  (at level 100, k at level 200, right associativity).

(** The fetch events of a trace, in order. *)
Definition fetches (tr : Trace) : list (string * RequestInit.t) :=
  flat_map (fun ev => match ev with fetch_call u i => [(u, i)] | _ => [] end) tr.

(** ** The handler *)

Record ProcessEnv := {
  INTERNAL_API_URL : option string;
  API_URL : option string;
}.

(** Line 54: the names the relay skips. *)
Definition hop_by_hop : list string := ["transfer-encoding"; "connection"; "keep-alive"].

(** Lines 30-32. *)
Definition pathAfterProxy (url : URL.t) : string :=
  Regex.replace_api_op (URL.pathname url).

Definition targetUrl (internalApiUrl : string) (url : URL.t) : string :=
  internalApiUrl +:+ "/" +:+ pathAfterProxy url +:+ URL.search url.

(** Lines 51-57: the loop that builds [responseHeaders]. *)
Definition responseHeaders (proxyResponse : Response.t) : Headers.t :=
  Headers.forEach (Response.headers proxyResponse)
    (fun value key responseHeaders =>
       if negb (Js.includes hop_by_hop (Js.toLowerCase key))
       then Headers.set responseHeaders key value
       else responseHeaders)
    Headers.empty.

(** The two JSON error answers (lines 23-26 and 67-70). *)
Definition error_response (message : string) (status : Z) : M Response.t :=
  lift (Response.new
          (Some (Body.of_string (Js.JSON_stringify [("error", message)])))
          {| Response.init_status := Some status;
             Response.init_statusText := None;
             Response.init_headers :=
               Some (Headers.of_record [("Content-Type", "application/json")]) |}).

Section ProxyRequest.

(** [process.env] *)
Variable process_env : ProcessEnv.

(** [new URL(s).host]: the host of [s], or the TypeError an invalid URL
    raises. *)
Variable URL_host : string -> Js.Error + string.

(** The outcome of [await fetch(input, init)]: the response, or the
    error the promise rejects with. *)
Variable fetch_outcome : string -> RequestInit.t -> Js.Error + Response.t.

Definition fetch (input : string) (init : RequestInit.t) : M Response.t :=
  emit (fetch_call input init) ;; lift (fetch_outcome input init).

(** Lines 38-48: the arguments of [fetch], evaluated in source order. *)
Definition outbound (internalApiUrl : string) (request : Request.t) : M RequestInit.t :=
  let method := Request.method request in
  let entries := Js.Object_fromEntries (Headers.entries (Request.headers request)) in
  let* host := lift (URL_host internalApiUrl) in
  let headers := <["host" := host]> entries in
  let* body :=
    if negb (String.eqb method "GET") && negb (String.eqb method "HEAD")
    then ret (Some (Request.text request))
    else ret None in
  ret {| RequestInit.method := method;
         RequestInit.headers := headers;
         RequestInit.body := body |}.

Definition proxyRequest (request : Request.t) : M Response.t :=
  let internalApiUrl := Js.or (INTERNAL_API_URL process_env) (API_URL process_env) in
  match internalApiUrl with
  | None | Some "" => error_response "API URL not configured" 500
  | Some internalApiUrl =>
      let url := Request.url request in
      let targetUrl := targetUrl internalApiUrl url in
      emit (console_log ("[API Proxy] " +:+ Request.method request +:+ " "
                           +:+ URL.pathname url +:+ " -> " +:+ targetUrl)) ;;
      try_catch
        (let* init := outbound internalApiUrl request in
         let* proxyResponse := fetch targetUrl init in
         let responseHeaders := responseHeaders proxyResponse in
         lift (Response.new (Body.of_stream <$> Response.body proxyResponse)
                 {| Response.init_status := Some (Response.status proxyResponse);
                    Response.init_statusText := Some (Response.statusText proxyResponse);
                    Response.init_headers := Some (Headers.of_Headers responseHeaders) |}))
        (fun error =>
           emit (console_error "[API Proxy] Error:" error) ;;
           error_response "Proxy request failed" 502)
  end.

(** One invocation, from an empty trace. *)
Definition handle (request : Request.t) : (Js.Error + Response.t) * Trace :=
  proxyRequest request [].

End ProxyRequest.

(** ** The route (lines 74-85)

    [createFileRoute('/api/op/$')] binds the one handler to six methods.
    The table is the [handlers] object, its properties in source order. *)

Definition Route_path : string := "/api/op/$".

Definition Route_handlers
    (process_env : ProcessEnv) (URL_host : string -> Js.Error + string)
    (fetch_outcome : string -> RequestInit.t -> Js.Error + Response.t)
    : list (string * (Request.t -> M Response.t)) :=
  [("GET", proxyRequest process_env URL_host fetch_outcome);
   ("POST", proxyRequest process_env URL_host fetch_outcome);
   ("PUT", proxyRequest process_env URL_host fetch_outcome);
   ("PATCH", proxyRequest process_env URL_host fetch_outcome);
   ("DELETE", proxyRequest process_env URL_host fetch_outcome);
   ("OPTIONS", proxyRequest process_env URL_host fetch_outcome)].

(** The handler the table holds for a method, if it holds one. *)
Definition Route_handler
    (process_env : ProcessEnv) (URL_host : string -> Js.Error + string)
    (fetch_outcome : string -> RequestInit.t -> Js.Error + Response.t)
    (method : string) : option (Request.t -> M Response.t) :=
  snd <$> List.find (fun entry => String.eqb (fst entry) method)
            (Route_handlers process_env URL_host fetch_outcome).


(** ** Vocabulary of the statements *)

(** The base URL the handler settles on: the primary variable if it is a
    non-empty string, else the fallback if it is one. *)
Definition configured (env : ProcessEnv) : option string :=
  match Js.or (INTERNAL_API_URL env) (API_URL env) with
  | None | Some "" => None
  | Some base => Some base
  end.

(** [{"error":"<message>"}], spelled out character by character. *)
Definition error_json (message : string) : string :=
  "{" +:+ String Js.dquote "error" +:+ String Js.dquote ":"
      +:+ String Js.dquote message +:+ String Js.dquote "}".

(** The answer the handler gives on its two error paths. *)
Definition error_answer (status : Z) (message : string) : Response.t :=
  {| Response.status := status;
     Response.statusText := "";
     Response.headers := [("Content-Type", "application/json")];
     Response.body := Some [list_byte_of_string (error_json message)] |}.

Definition configuration_missing : Response.t :=
  error_answer 500 "API URL not configured".

Definition proxy_failed : Response.t :=
  error_answer 502 "Proxy request failed".

(** The request line the handler logs before it forwards. *)
Definition log_line (base : string) (request : Request.t) : Event :=
  console_log ("[API Proxy] " +:+ Request.method request +:+ " "
                 +:+ URL.pathname (Request.url request) +:+ " -> "
                 +:+ targetUrl base (Request.url request)).

Definition caught (e : Js.Error) : Event := console_error "[API Proxy] Error:" e.

(** What a trace wrote with [console.log], and the errors it gave to
    [console.error], in order. *)
Definition logs (tr : Trace) : list string :=
  flat_map (fun ev => match ev with console_log m => [m] | _ => [] end) tr.

Definition errors (tr : Trace) : list Js.Error :=
  flat_map (fun ev => match ev with console_error _ e => [e] | _ => [] end) tr.

(** The [fetch] options once the host of the base URL is known. *)
Definition forwarded (host : string) (request : Request.t) : RequestInit.t :=
  {| RequestInit.method := Request.method request;
     RequestInit.headers :=
       <["host" := host]> (Js.Object_fromEntries (Headers.entries (Request.headers request)));
     RequestInit.body :=
       if negb (String.eqb (Request.method request) "GET")
          && negb (String.eqb (Request.method request) "HEAD")
       then Some (Request.text request) else None |}.

(** The relay of a fetched response (lines 60-64). *)
Definition relay (proxyResponse : Response.t) : Js.Error + Response.t :=
  Response.new (Body.of_stream <$> Response.body proxyResponse)
    {| Response.init_status := Some (Response.status proxyResponse);
       Response.init_statusText := Some (Response.statusText proxyResponse);
       Response.init_headers := Some (Headers.of_Headers (responseHeaders proxyResponse)) |}.

(** A response [new Response] accepts for relaying. *)
Definition relayable (r : Response.t) : bool :=
  (200 <=? Response.status r) && (Response.status r <=? 599)
  && Response.reason_phrase (Response.statusText r)
  && match Response.body r with
     | Some _ => negb (Response.null_body_status (Response.status r))
     | None => true
     end.

(** ** Concrete runs

    A deployment, a backend and a few requests on which the statements
    below are instantiated. *)

Module Scenario.

Definition base : string := "http://api.internal:8080".

Definition env : ProcessEnv :=
  {| INTERNAL_API_URL := Some base; API_URL := None |}.

Definition no_env : ProcessEnv :=
  {| INTERNAL_API_URL := None; API_URL := Some "" |}.

(** [new URL(s).host] for the one base URL of the deployment. *)
Definition URL_host (s : string) : Js.Error + string :=
  if String.eqb s base then inr "api.internal:8080"
  else inl (Js.TypeError "Invalid URL").

Definition get_user : Request.t :=
  {| Request.method := "GET";
     Request.url := {| URL.pathname := "/api/op/users/42"; URL.search := "?active=true" |};
     Request.headers := [("Host", "dashboard.example"); ("Accept", "application/json")];
     Request.body := None |}.

Definition post_users : Request.t :=
  {| Request.method := "POST";
     Request.url := {| URL.pathname := "/api/op/users"; URL.search := "" |};
     Request.headers := [("Host", "dashboard.example"); ("Content-Type", "application/json")];
     Request.body := Some (list_byte_of_string "{}") |}.

Definition ok : Response.t :=
  {| Response.status := 200;
     Response.statusText := "OK";
     Response.headers :=
       [("Content-Type", "application/json");
        ("Transfer-Encoding", "chunked");
        ("Connection", "keep-alive")];
     Response.body := Some [list_byte_of_string "{}"] |}.

Definition backend (input : string) (init : RequestInit.t) : Js.Error + Response.t :=
  inr ok.

Definition unreachable (input : string) (init : RequestInit.t) : Js.Error + Response.t :=
  inl (Js.TypeError "fetch failed").

(** A sign-in answer that sets two cookies. *)
Definition signed_in : Response.t :=
  {| Response.status := 200;
     Response.statusText := "OK";
     Response.headers :=
       [("Content-Type", "application/json");
        ("Set-Cookie", "session=abc; Path=/; HttpOnly");
        ("Set-Cookie", "theme=dark; Path=/");
        ("Transfer-Encoding", "chunked");
        ("Connection", "keep-alive")];
     Response.body := Some [list_byte_of_string "{}"] |}.

Definition sign_in (input : string) (init : RequestInit.t) : Js.Error + Response.t :=
  inr signed_in.

(** A backend that answers with a status above 599. *)
Definition denied : Response.t :=
  {| Response.status := 999;
     Response.statusText := "Request denied";
     Response.headers := [("Content-Type", "text/html")];
     Response.body := Some [list_byte_of_string "denied"] |}.

Definition gatekeeper (input : string) (init : RequestInit.t) : Js.Error + Response.t :=
  inr denied.

(** A POST whose body is not text: the first bytes of a gzip stream. *)
Definition upload : Request.t :=
  {| Request.method := "POST";
     Request.url := {| URL.pathname := "/api/op/import"; URL.search := "" |};
     Request.headers :=
       [("Host", "dashboard.example"); ("Content-Encoding", "gzip")];
     Request.body := Some [x1f; x8b; x08] |}.

(** A request that carries the same header twice in the one name
    iteration does not combine. *)
Definition twice : Request.t :=
  {| Request.method := "GET";
     Request.url := {| URL.pathname := "/api/op/users"; URL.search := "" |};
     Request.headers :=
       [("Host", "dashboard.example"); ("Set-Cookie", "a=1"); ("Set-Cookie", "b=2")];
     Request.body := None |}.

(** A path outside the mount prefix. *)
Definition health : URL.t := {| URL.pathname := "/health"; URL.search := "?deep=1" |}.

(** A DELETE without body. *)
Definition delete_user : Request.t :=
  {| Request.method := "DELETE";
     Request.url := {| URL.pathname := "/api/op/users/42"; URL.search := "" |};
     Request.headers := [("Host", "dashboard.example")];
     Request.body := None |}.


(** A deployment whose base URL is a bare host name, which [new URL]
    rejects. *)
Definition schemeless : ProcessEnv :=
  {| INTERNAL_API_URL := Some "api.internal"; API_URL := None |}.

End Scenario.

(** ** Running the handler *)

Lemma error_response_500 tr :
  error_response "API URL not configured" 500 tr = (inr configuration_missing, tr).
Proof. reflexivity. Qed.

Lemma error_response_502 tr :
  error_response "Proxy request failed" 502 tr = (inr proxy_failed, tr).
Proof. reflexivity. Qed.

Lemma configured_or env base :
  configured env = Some base ->
  Js.or (INTERNAL_API_URL env) (API_URL env) = Some base /\ base <> "".
Proof.
  unfold configured.
  destruct (Js.or _ _) as [[|c s]|]; intros H; inversion H; subst; split; congruence.
Qed.

Lemma configured_None env :
  configured env = None <->
  Js.truthy (INTERNAL_API_URL env) = false /\ Js.truthy (API_URL env) = false.
Proof.
  unfold configured, Js.or.
  destruct (INTERNAL_API_URL env) as [[|c s]|], (API_URL env) as [[|c' s']|];
    cbn; intuition congruence.
Qed.

Section Run.

Variable process_env : ProcessEnv.
Variable URL_host : string -> Js.Error + string.
Variable fetch_outcome : string -> RequestInit.t -> Js.Error + Response.t.

Lemma outbound_run base request tr :
  outbound URL_host base request tr =
  match URL_host base with
  | inl e => (inl e, tr)
  | inr host => (inr (forwarded host request), tr)
  end.
Proof.
  unfold outbound, forwarded, bind, lift, ret.
  destruct (URL_host base) as [e|host]; [reflexivity|].
  destruct (negb _ && negb _); reflexivity.
Qed.

(** Every run of the handler, by cases on what the platform answers. *)
Lemma handle_unconfigured request :
  configured process_env = None ->
  handle process_env URL_host fetch_outcome request = (inr configuration_missing, []).
Proof.
  unfold handle, proxyRequest, configured.
  destruct (Js.or _ _) as [[|c s]|]; intros H; try discriminate H; apply error_response_500.
Qed.

Lemma handle_configured base request :
  configured process_env = Some base ->
  handle process_env URL_host fetch_outcome request =
  let target := targetUrl base (Request.url request) in
  match URL_host base with
  | inl e => (inr proxy_failed, [log_line base request; caught e])
  | inr host =>
      let call := fetch_call target (forwarded host request) in
      match fetch_outcome target (forwarded host request) with
      | inl e => (inr proxy_failed, [log_line base request; call; caught e])
      | inr proxyResponse =>
          match relay proxyResponse with
          | inl e => (inr proxy_failed, [log_line base request; call; caught e])
          | inr response => (inr response, [log_line base request; call])
          end
      end
  end.
Proof.
  intros Hc. apply configured_or in Hc as [Hor Hne].
  unfold handle, proxyRequest. rewrite Hor.
  destruct base as [|c s]; [congruence|].
  unfold bind at 1, emit at 1, try_catch. cbn [app].
  unfold bind at 1. rewrite outbound_run.
  destruct (URL_host (String c s)) as [e|host]; [reflexivity|].
  unfold bind at 1, fetch, bind at 1, emit, lift. cbn [app].
  destruct (fetch_outcome _ _) as [e|proxyResponse]; [reflexivity|].
  fold (relay proxyResponse).
  destruct (relay proxyResponse); reflexivity.
Qed.

End Run.

(** ** The error answers *)

Lemma append_assoc (a b c : string) : (a +:+ b) +:+ c = a +:+ b +:+ c.
Proof.
  induction a as [|x a IH]; [reflexivity|].
  change (String x ((a +:+ b) +:+ c) = String x (a +:+ b +:+ c)).
  now rewrite IH.
Qed.

Lemma fetches_app (tr tr' : Trace) :
  fetches (tr ++ tr')%list = (fetches tr ++ fetches tr')%list.
Proof. unfold fetches. apply flat_map_app. Qed.

(** C1: with neither [INTERNAL_API_URL] nor [API_URL] set to a non-empty
    string, every request, whatever its method and path, is answered 500
    with the body [{"error":"API URL not configured"}] and the header
    [Content-Type: application/json], and [fetch] is never called. *)
Theorem C1_configuration_missing
    (env : ProcessEnv) (URL_host : string -> Js.Error + string)
    (fetch_outcome : string -> RequestInit.t -> Js.Error + Response.t)
    (request : Request.t) :
  Js.truthy (INTERNAL_API_URL env) = false ->
  Js.truthy (API_URL env) = false ->
  exists response trace,
    handle env URL_host fetch_outcome request = (inr response, trace)
    /\ Response.status response = 500
    /\ Response.body response
       = Some [list_byte_of_string
                 ("{" +:+ String Js.dquote "error" +:+ String Js.dquote ":"
                      +:+ String Js.dquote "API URL not configured" +:+ String Js.dquote "}")]
    /\ Headers.get (Response.headers response) "content-type" = Some "application/json"
    /\ fetches trace = [].
Proof.
  intros Hi Ha. exists configuration_missing, [].
  rewrite handle_unconfigured by (apply configured_None; auto).
  repeat split.
Qed.

Lemma C1_witness :
  Js.truthy (INTERNAL_API_URL Scenario.no_env) = false
  /\ Js.truthy (API_URL Scenario.no_env) = false
  /\ exists response trace,
       handle Scenario.no_env Scenario.URL_host Scenario.backend Scenario.post_users
       = (inr response, trace)
       /\ Response.status response = 500
       /\ Response.body response
          = Some [list_byte_of_string
                    ("{" +:+ String Js.dquote "error" +:+ String Js.dquote ":"
                         +:+ String Js.dquote "API URL not configured" +:+ String Js.dquote "}")]
       /\ Headers.get (Response.headers response) "content-type" = Some "application/json"
       /\ fetches trace = [].
Proof.
  split; [reflexivity|]. split; [reflexivity|].
  apply (C1_configuration_missing Scenario.no_env); reflexivity.
Defined.

(** C2: with a base URL configured, when the outbound call fails (the base
    URL does not parse, or [fetch] rejects for whatever reason) the
    answer is 502 with the body [{"error":"Proxy request failed"}] and
    the header [Content-Type: application/json]; [fetch] has been called
    at most once. *)
Theorem C2_upstream_unreachable
    (env : ProcessEnv) (URL_host : string -> Js.Error + string)
    (fetch_outcome : string -> RequestInit.t -> Js.Error + Response.t)
    (request : Request.t) (base : string) :
  configured env = Some base ->
  ((exists e, URL_host base = inl e)
   \/ (exists host e,
         URL_host base = inr host
         /\ fetch_outcome (targetUrl base (Request.url request)) (forwarded host request)
            = inl e)) ->
  exists response trace,
    handle env URL_host fetch_outcome request = (inr response, trace)
    /\ Response.status response = 502
    /\ Response.body response
       = Some [list_byte_of_string
                 ("{" +:+ String Js.dquote "error" +:+ String Js.dquote ":"
                      +:+ String Js.dquote "Proxy request failed" +:+ String Js.dquote "}")]
    /\ Headers.get (Response.headers response) "content-type" = Some "application/json"
    /\ (length (fetches trace) <= 1)%nat.
Proof.
  intros Hc Hfail. exists proxy_failed.
  rewrite (handle_configured _ _ _ _ _ Hc). cbn zeta.
  destruct Hfail as [[e He]|(host & e & Hh & Hf)].
  - rewrite He. eexists. repeat split. cbn. lia.
  - rewrite Hh, Hf. eexists. repeat split. cbn. lia.
Qed.

Lemma C2_witness :
  configured Scenario.env = Some Scenario.base
  /\ exists response trace,
       handle Scenario.env Scenario.URL_host Scenario.unreachable Scenario.post_users
       = (inr response, trace)
       /\ Response.status response = 502
       /\ Response.body response
          = Some [list_byte_of_string
                    ("{" +:+ String Js.dquote "error" +:+ String Js.dquote ":"
                         +:+ String Js.dquote "Proxy request failed" +:+ String Js.dquote "}")]
       /\ Headers.get (Response.headers response) "content-type" = Some "application/json"
       /\ (length (fetches trace) <= 1)%nat.
Proof.
  split; [reflexivity|].
  apply (C2_upstream_unreachable Scenario.env Scenario.URL_host Scenario.unreachable
           Scenario.post_users Scenario.base); [reflexivity|].
  right. exists "api.internal:8080", (Js.TypeError "fetch failed"). split; reflexivity.
Defined.

(** ** The target URL *)

Lemma prefix_append (a s : string) :
  String.prefix a s = true -> exists rest, s = a +:+ rest.
Proof.
  revert s. induction a as [|x a IH]; intros s H.
  - exists s. reflexivity.
  - destruct s as [|y s]; [discriminate H|]. simpl in H.
    destruct (ascii_dec x y) as [->|]; [|discriminate H].
    destruct (IH s H) as [rest ->]. exists rest. reflexivity.
Qed.

Lemma match_literal_append (a rest : string) :
  Regex.match_literal a (a +:+ rest) = Some rest.
Proof.
  induction a as [|x a IH]; [destruct rest; reflexivity|].
  change (String x a +:+ rest) with (String x (a +:+ rest)).
  simpl. now rewrite Ascii.eqb_refl.
Qed.

Lemma targetUrl_unfold base url :
  targetUrl base url = base +:+ "/" +:+ pathAfterProxy url +:+ URL.search url.
Proof. reflexivity. Qed.

Lemma pathAfterProxy_slash rest search :
  pathAfterProxy {| URL.pathname := "/api/op/" +:+ rest; URL.search := search |} = rest.
Proof. reflexivity. Qed.

Section Target.

Variable process_env : ProcessEnv.
Variable URL_host : string -> Js.Error + string.
Variable fetch_outcome : string -> RequestInit.t -> Js.Error + Response.t.

(** Whatever the platform answers, a call to [fetch] goes to the target
    URL, and there is at most one. *)
Lemma fetches_of_run base request :
  configured process_env = Some base ->
  let calls := fetches (snd (handle process_env URL_host fetch_outcome request)) in
  Forall (fun call => fst call = targetUrl base (Request.url request)) calls
  /\ (length calls <= 1)%nat.
Proof.
  intros Hc. rewrite (handle_configured _ _ _ _ _ Hc). cbn zeta.
  destruct (URL_host base) as [e|host]; [cbn; split; [constructor | lia]|].
  destruct (fetch_outcome _ _) as [e|r]; [|destruct (relay r)];
    cbn; (split; [repeat constructor | lia]).
Qed.

End Target.

(** C3: the scenario [GET /api/op/users/42?active=true] with the base URL
    [http://api.internal:8080] has the target
    [http://api.internal:8080/users/42?active=true]; it is the URL the
    handler logs and the one it fetches. *)
Theorem C3_scenario_target :
  targetUrl "http://api.internal:8080"
    {| URL.pathname := "/api/op/users/42"; URL.search := "?active=true" |}
  = "http://api.internal:8080/users/42?active=true"
  /\ (let '(_, trace) :=
        handle Scenario.env Scenario.URL_host Scenario.backend Scenario.get_user in
      head trace
      = Some (console_log
                "[API Proxy] GET /api/op/users/42 -> http://api.internal:8080/users/42?active=true")
      /\ map fst (fetches trace) = ["http://api.internal:8080/users/42?active=true"])
  /\ (forall URL_host fetch_outcome,
        Forall (fun call => fst call = "http://api.internal:8080/users/42?active=true")
          (fetches (snd (handle Scenario.env URL_host fetch_outcome Scenario.get_user)))).
Proof.
  split; [reflexivity|]. split; [split; reflexivity|].
  intros URL_host fetch_outcome.
  apply (fetches_of_run Scenario.env URL_host fetch_outcome Scenario.base Scenario.get_user).
  reflexivity.
Qed.

(** C4, as stated, fails: the prefix is removed at the start of the path
    only, so a path that repeats it carries [/api/op/] into the target. *)
Lemma C4_prefix_reappears :
  let url := {| URL.pathname := "/api/op/api/op/users"; URL.search := "" |} in
  String.prefix "/api/op" (URL.pathname url) = true
  /\ targetUrl "http://api.internal:8080" url = "http://api.internal:8080/api/op/users"
  /\ Js.contains "/api/op/" (targetUrl "http://api.internal:8080" url) = true.
Proof. repeat split. Qed.

(** C4, amended: for every inbound path that begins with [/api/op], the
    target URL is the base URL, a slash, the remainder and the query
    string, where the remainder is the path without its leading [/api/op]
    and without the one slash that may follow it. *)
Theorem C4_target_of_mounted_path (base : string) (url : URL.t) :
  String.prefix "/api/op" (URL.pathname url) = true ->
  exists remainder,
    (URL.pathname url = "/api/op/" +:+ remainder
     \/ (URL.pathname url = "/api/op" +:+ remainder
         /\ String.prefix "/" remainder = false))
    /\ pathAfterProxy url = remainder
    /\ targetUrl base url = base +:+ "/" +:+ remainder +:+ URL.search url.
Proof.
  intros H. apply prefix_append in H as [rest Hrest].
  assert (Hm : Regex.match_literal "/api/op" (URL.pathname url) = Some rest)
    by (rewrite Hrest; apply match_literal_append).
  unfold targetUrl, pathAfterProxy, Regex.replace_api_op. rewrite Hm.
  destruct rest as [|c rest'].
  - exists "". split; [right; split; [exact Hrest | reflexivity]|]. split; reflexivity.
  - simpl. destruct (Ascii.eqb_spec c "/") as [->|Hne].
    + exists rest'. split; [left; exact Hrest|]. split; reflexivity.
    + exists (String c rest'). split; [|split; reflexivity].
      right. split; [exact Hrest|].
      change (String.prefix "/" (String c rest'))
        with (if ascii_dec "/" c then String.prefix "" rest' else false).
      destruct (ascii_dec "/" c) as [<-|]; [congruence | reflexivity].
Qed.

Lemma C4_witness :
  String.prefix "/api/op" (URL.pathname (Request.url Scenario.get_user)) = true
  /\ exists remainder,
       (URL.pathname (Request.url Scenario.get_user) = "/api/op/" +:+ remainder
        \/ (URL.pathname (Request.url Scenario.get_user) = "/api/op" +:+ remainder
            /\ String.prefix "/" remainder = false))
       /\ pathAfterProxy (Request.url Scenario.get_user) = remainder
       /\ targetUrl Scenario.base (Request.url Scenario.get_user)
          = Scenario.base +:+ "/" +:+ remainder +:+ URL.search (Request.url Scenario.get_user).
Proof.
  split; [reflexivity|].
  apply (C4_target_of_mounted_path Scenario.base (Request.url Scenario.get_user)).
  reflexivity.
Defined.

(** C10: the target is always the base URL, a slash, the remainder and
    the query string.  A base URL that ends with a slash therefore gives
    two slashes before the remainder, and the bare mount prefix gives the
    base URL, a slash and the query string.  This is the URL of every
    [fetch] the handler issues. *)
Theorem C10_slash_always_inserted :
  (forall base url,
     targetUrl base url = base +:+ "/" +:+ pathAfterProxy url +:+ URL.search url)
  /\ (forall b url,
        targetUrl (b +:+ "/") url = b +:+ "//" +:+ pathAfterProxy url +:+ URL.search url)
  /\ (forall base search,
        targetUrl base {| URL.pathname := "/api/op"; URL.search := search |}
        = base +:+ "/" +:+ search
        /\ targetUrl base {| URL.pathname := "/api/op/"; URL.search := search |}
           = base +:+ "/" +:+ search)
  /\ (forall env URL_host fetch_outcome request,
        let calls := fetches (snd (handle env URL_host fetch_outcome request)) in
        match configured env with
        | Some base =>
            Forall (fun call =>
                      fst call = base +:+ "/" +:+ pathAfterProxy (Request.url request)
                                      +:+ URL.search (Request.url request)) calls
        | None => calls = []
        end).
Proof.
  split; [reflexivity|]. split.
  { intros b url. unfold targetUrl. now rewrite append_assoc. }
  split; [split; reflexivity|].
  intros env URL_host fetch_outcome request.
  destruct (configured env) as [base|] eqn:Hc.
  - apply (fetches_of_run env URL_host fetch_outcome base request Hc).
  - cbn zeta. now rewrite handle_unconfigured.
Qed.

(** ** The environment *)

Lemma log_of_run env URL_host fetch_outcome base request :
  configured env = Some base ->
  head (snd (handle env URL_host fetch_outcome request)) = Some (log_line base request).
Proof.
  intros Hc. rewrite (handle_configured _ _ _ _ _ Hc). cbn zeta.
  destruct (URL_host base) as [e|host]; [reflexivity|].
  destruct (fetch_outcome _ _) as [e|r]; [|destruct (relay r)]; reflexivity.
Qed.

Lemma handle_same_base env env' URL_host fetch_outcome request :
  configured env = configured env' ->
  handle env URL_host fetch_outcome request = handle env' URL_host fetch_outcome request.
Proof.
  intros H. destruct (configured env') as [base|] eqn:Hc'.
  - rewrite (handle_configured _ _ _ _ _ H), (handle_configured _ _ _ _ _ Hc'). reflexivity.
  - rewrite (handle_unconfigured _ _ _ _ H), (handle_unconfigured _ _ _ _ Hc'). reflexivity.
Qed.

(** C9: a variable set to the empty string counts as unset.  With
    [INTERNAL_API_URL] empty the handler behaves as if it were absent and
    takes [API_URL]; with both empty or absent it answers the
    configuration-missing 500. *)
Theorem C9_empty_string_is_unset
    (URL_host : string -> Js.Error + string)
    (fetch_outcome : string -> RequestInit.t -> Js.Error + Response.t)
    (request : Request.t) :
  (forall api,
     handle {| INTERNAL_API_URL := Some ""; API_URL := api |} URL_host fetch_outcome request
     = handle {| INTERNAL_API_URL := None; API_URL := api |} URL_host fetch_outcome request)
  /\ (forall c s,
        let env := {| INTERNAL_API_URL := Some ""; API_URL := Some (String c s) |} in
        configured env = Some (String c s)
        /\ head (snd (handle env URL_host fetch_outcome request))
           = Some (log_line (String c s) request)
        /\ Forall (fun call => fst call = targetUrl (String c s) (Request.url request))
             (fetches (snd (handle env URL_host fetch_outcome request))))
  /\ (forall internal api,
        In internal [None; Some ""] -> In api [None; Some ""] ->
        handle {| INTERNAL_API_URL := internal; API_URL := api |} URL_host fetch_outcome request
        = (inr configuration_missing, [])).
Proof.
  split; [|split].
  - intros api. apply handle_same_base. reflexivity.
  - intros c s env. split; [reflexivity|]. split.
    + now apply log_of_run.
    + now apply (fetches_of_run env URL_host fetch_outcome (String c s) request).
  - intros internal api Hi Ha. apply handle_unconfigured.
    cbn in Hi, Ha.
    destruct Hi as [<-|[<-|[]]], Ha as [<-|[<-|[]]]; reflexivity.
Qed.

Lemma C9_witness :
  In (Some "") [None; Some ""] /\ In (@None string) [None; Some ""]
  /\ handle {| INTERNAL_API_URL := Some ""; API_URL := None |}
       Scenario.URL_host Scenario.backend Scenario.post_users
     = (inr configuration_missing, []).
Proof.
  split; [right; left; reflexivity|]. split; [left; reflexivity|].
  apply (C9_empty_string_is_unset Scenario.URL_host Scenario.backend Scenario.post_users).
  - right; left; reflexivity.
  - left; reflexivity.
Defined.

(** ** Header lists *)

Lemma lower_ascii_idem c : Js.lower_ascii (Js.lower_ascii c) = Js.lower_ascii c.
Proof.
  destruct c as [b0 b1 b2 b3 b4 b5 b6 b7].
  destruct b0, b1, b2, b3, b4, b5, b6, b7; reflexivity.
Qed.

Lemma toLowerCase_idem s : Js.toLowerCase (Js.toLowerCase s) = Js.toLowerCase s.
Proof.
  induction s as [|c s IH]; [reflexivity|].
  simpl. now rewrite lower_ascii_idem, IH.
Qed.

Lemma name_is_spec n h :
  Headers.name_is n h = true <-> Js.toLowerCase (fst h) = Js.toLowerCase n.
Proof. unfold Headers.name_is. apply String.eqb_eq. Qed.

Lemma name_is_lower n h :
  Headers.name_is (Js.toLowerCase n) h = Headers.name_is n h.
Proof. unfold Headers.name_is. now rewrite toLowerCase_idem. Qed.

Lemma values_lower l n : Headers.values l (Js.toLowerCase n) = Headers.values l n.
Proof.
  unfold Headers.values. f_equal.
  apply List.filter_ext. intros h. apply name_is_lower.
Qed.

Lemma get_lower l n : Headers.get l (Js.toLowerCase n) = Headers.get l n.
Proof. unfold Headers.get. now rewrite values_lower. Qed.

Lemma values_app (l l' : Headers.t) n :
  Headers.values (l ++ l')%list n = (Headers.values l n ++ Headers.values l' n)%list.
Proof. unfold Headers.values. now rewrite List.filter_app, map_app. Qed.

(** The order on names. *)

Lemma ascii_compare_trans a b c :
  Ascii.compare a b = Lt -> Ascii.compare b c = Lt -> Ascii.compare a c = Lt.
Proof.
  unfold Ascii.compare. rewrite !N.compare_lt_iff. lia.
Qed.

Lemma ascii_compare_refl a : Ascii.compare a a = Eq.
Proof. unfold Ascii.compare. apply N.compare_refl. Qed.

Lemma string_compare_refl s : String.compare s s = Eq.
Proof.
  induction s as [|c s IH]; [reflexivity|].
  simpl. now rewrite ascii_compare_refl.
Qed.

Lemma string_compare_trans s1 s2 s3 :
  String.compare s1 s2 = Lt -> String.compare s2 s3 = Lt -> String.compare s1 s3 = Lt.
Proof.
  revert s2 s3. induction s1 as [|a s1 IH]; intros [|b s2] [|c s3]; simpl;
    try congruence.
  destruct (Ascii.compare a b) eqn:Hab; try discriminate;
    destruct (Ascii.compare b c) eqn:Hbc; try discriminate; intros H12 H23.
  - apply Ascii.compare_eq_iff in Hab, Hbc. subst.
    rewrite ascii_compare_refl. eauto.
  - apply Ascii.compare_eq_iff in Hab. subst. now rewrite Hbc.
  - apply Ascii.compare_eq_iff in Hbc. subst. now rewrite Hab.
  - now rewrite (ascii_compare_trans _ _ _ Hab Hbc).
Qed.

Lemma In_insert_name x y names :
  In x (Headers.insert_name y names) <-> x = y \/ In x names.
Proof.
  induction names as [|z names IH]; simpl; [intuition|].
  destruct (String.compare y z) eqn:Hc; simpl.
  - apply String.compare_eq_iff in Hc. subst. intuition.
  - intuition.
  - rewrite IH. intuition.
Qed.

Lemma In_sorted_lowercase_names l x :
  In x (Headers.sorted_lowercase_names l)
  <-> exists h, In h l /\ Js.toLowerCase (fst h) = x.
Proof.
  unfold Headers.sorted_lowercase_names.
  induction l as [|h l IH]; simpl.
  - split; [intros [] | intros (h & [] & _)].
  - rewrite In_insert_name, IH. split.
    + intros [->|(h' & Hin & Heq)]; eauto.
    + intros (h' & [<-|Hin] & Heq); eauto.
Qed.

Lemma sorted_names_lowercase l x :
  In x (Headers.sorted_lowercase_names l) -> Js.toLowerCase x = x.
Proof.
  rewrite In_sorted_lowercase_names. intros (h & _ & <-). apply toLowerCase_idem.
Qed.

Lemma insert_name_sorted x names :
  Sorted.StronglySorted (fun a b => String.compare a b = Lt) names ->
  Sorted.StronglySorted (fun a b => String.compare a b = Lt) (Headers.insert_name x names).
Proof.
  induction 1 as [|y names Hs IH Hall]; simpl.
  - repeat constructor.
  - destruct (String.compare x y) eqn:Hc.
    + now constructor.
    + constructor; [now constructor|].
      constructor; [exact Hc|].
      eapply List.Forall_impl; [|exact Hall].
      intros z Hz. simpl in Hz. eapply string_compare_trans; eauto.
    + constructor; [exact IH|].
      apply List.Forall_forall. intros z Hz.
      apply In_insert_name in Hz as [->|Hz].
      * rewrite String.compare_antisym, Hc. reflexivity.
      * rewrite List.Forall_forall in Hall. now apply Hall.
Qed.

Lemma sorted_lowercase_names_sorted l :
  Sorted.StronglySorted (fun a b => String.compare a b = Lt)
    (Headers.sorted_lowercase_names l).
Proof.
  unfold Headers.sorted_lowercase_names.
  induction (map _ l) as [|x names IH]; simpl.
  - constructor.
  - now apply insert_name_sorted.
Qed.

Lemma sorted_lowercase_names_NoDup l : List.NoDup (Headers.sorted_lowercase_names l).
Proof.
  induction (sorted_lowercase_names_sorted l) as [|x names Hs IH Hall].
  - constructor.
  - constructor; [|exact IH].
    intros Hin. rewrite List.Forall_forall in Hall. specialize (Hall x Hin).
    rewrite string_compare_refl in Hall. discriminate.
Qed.

(** What iteration reports for a name: all the values of [set-cookie],
    the one combined value of any other name. *)

Lemma values_pairs name vs n :
  Headers.values (map (pair name) vs) n
  = if String.eqb (Js.toLowerCase name) (Js.toLowerCase n) then vs else [].
Proof.
  unfold Headers.values.
  induction vs as [|v vs IH]; simpl.
  - now destruct (String.eqb _ _).
  - unfold Headers.name_is at 1. simpl fst.
    destruct (String.eqb _ _); simpl; [now rewrite IH | exact IH].
Qed.

Lemma entries_of_pairs l name :
  Headers.entries_of l name
  = map (pair name)
      (if String.eqb name "set-cookie" then Headers.values l name
       else match Headers.get l name with Some v => [v] | None => [] end).
Proof.
  unfold Headers.entries_of.
  destruct (String.eqb name "set-cookie"); [reflexivity|].
  now destruct (Headers.get l name).
Qed.

Lemma values_none_get l n : Headers.values l n = [] -> Headers.get l n = None.
Proof. unfold Headers.get. now intros ->. Qed.

Lemma values_not_listed l n :
  ~ In (Js.toLowerCase n) (Headers.sorted_lowercase_names l) -> Headers.values l n = [].
Proof.
  intros Hnot. unfold Headers.values.
  induction l as [|h l IH]; [reflexivity|].
  simpl. destruct (Headers.name_is n h) eqn:Hm.
  - exfalso. apply Hnot. apply In_sorted_lowercase_names.
    exists h. split; [now left | now apply name_is_spec].
  - apply IH. intros Hin. apply Hnot.
    apply In_sorted_lowercase_names in Hin as (h' & Hin & Heq).
    apply In_sorted_lowercase_names. exists h'. split; [now right | exact Heq].
Qed.

Lemma values_flat_map_entries l names n :
  (forall x, In x names -> Js.toLowerCase x = x) ->
  List.NoDup names ->
  Headers.values (flat_map (Headers.entries_of l) names) n
  = if in_dec string_dec (Js.toLowerCase n) names
    then Headers.values (Headers.entries_of l (Js.toLowerCase n)) n
    else [].
Proof.
  intros Hlow Hnd. induction Hnd as [|x names Hx Hnd IH]; [reflexivity|].
  cbn [flat_map]. rewrite values_app, IH by (intros; apply Hlow; now right).
  assert (Hx' : Js.toLowerCase x = x) by (apply Hlow; now left).
  rewrite (entries_of_pairs l x), values_pairs, Hx'.
  destruct (in_dec string_dec (Js.toLowerCase n) (x :: names)) as [Hin|Hnin].
  - destruct Hin as [->|Hin].
    + rewrite String.eqb_refl.
      destruct (in_dec string_dec _ names); [contradiction|].
      rewrite app_nil_r.
      rewrite (entries_of_pairs l (Js.toLowerCase n)), values_pairs, toLowerCase_idem.
      now rewrite String.eqb_refl.
    + destruct (String.eqb_spec x (Js.toLowerCase n)) as [->|_]; [contradiction|].
      now destruct (in_dec string_dec _ names).
  - destruct (String.eqb_spec x (Js.toLowerCase n)) as [->|_].
    + exfalso. apply Hnin. now left.
    + destruct (in_dec string_dec _ names) as [Hin|_]; [|reflexivity].
      exfalso. apply Hnin. now right.
Qed.

Lemma values_sort_and_combine l n :
  Headers.values (Headers.sort_and_combine l) n
  = if String.eqb (Js.toLowerCase n) "set-cookie" then Headers.values l n
    else match Headers.get l n with Some v => [v] | None => [] end.
Proof.
  unfold Headers.sort_and_combine.
  rewrite values_flat_map_entries
    by (apply sorted_names_lowercase || apply sorted_lowercase_names_NoDup).
  destruct (in_dec string_dec _ _) as [Hin|Hnin].
  - rewrite entries_of_pairs, values_pairs, toLowerCase_idem, String.eqb_refl.
    now rewrite values_lower, get_lower.
  - apply values_not_listed in Hnin.
    rewrite (values_none_get _ _ Hnin), Hnin. now destruct (String.eqb _ _).
Qed.

(** [set] and [append], seen through [values]. *)

Lemma name_is_sym_eqb k v n :
  Headers.name_is n (k, v) = String.eqb (Js.toLowerCase k) (Js.toLowerCase n).
Proof. reflexivity. Qed.

Lemma name_is_same_name k n h :
  Headers.name_is k h = true ->
  Headers.name_is n h = String.eqb (Js.toLowerCase k) (Js.toLowerCase n).
Proof.
  intros Hk. apply name_is_spec in Hk. unfold Headers.name_is. now rewrite Hk.
Qed.

Lemma values_cons h l n :
  Headers.values (h :: l) n
  = if Headers.name_is n h then snd h :: Headers.values l n else Headers.values l n.
Proof. unfold Headers.values. simpl. now destruct (Headers.name_is n h). Qed.

Lemma name_is_other k n h :
  Js.toLowerCase k = Js.toLowerCase n -> Headers.name_is n h = Headers.name_is k h.
Proof. intros Heq. unfold Headers.name_is. now rewrite Heq. Qed.

Lemma has_other k n l :
  Js.toLowerCase k = Js.toLowerCase n -> Headers.has l n = Headers.has l k.
Proof.
  intros Heq. unfold Headers.has.
  induction l as [|h l IH]; [reflexivity|].
  simpl. now rewrite IH, (name_is_other k n h Heq).
Qed.

Lemma has_values l n : Headers.has l n = false -> Headers.values l n = [].
Proof.
  unfold Headers.has.
  induction l as [|h l IH]; [reflexivity|].
  rewrite values_cons. simpl. destruct (Headers.name_is n h); [discriminate | exact IH].
Qed.

Lemma values_filter_out k l n :
  Headers.values (List.filter (fun h => negb (Headers.name_is k h)) l) n
  = if String.eqb (Js.toLowerCase k) (Js.toLowerCase n) then [] else Headers.values l n.
Proof.
  induction l as [|h l IH].
  - simpl. now destruct (String.eqb _ _).
  - cbn [List.filter]. rewrite (values_cons h l n).
    destruct (Headers.name_is k h) eqn:Hk; cbn [negb].
    + rewrite IH, (name_is_same_name k n h Hk).
      now destruct (String.eqb _ _).
    + rewrite values_cons, IH.
      destruct (String.eqb_spec (Js.toLowerCase k) (Js.toLowerCase n)) as [Heq|Hne].
      * now rewrite (name_is_other k n h Heq), Hk.
      * reflexivity.
Qed.

Lemma values_set_first k v l n :
  Headers.has l k = true ->
  Headers.values (Headers.set_first k v l) n
  = if String.eqb (Js.toLowerCase k) (Js.toLowerCase n) then [v] else Headers.values l n.
Proof.
  unfold Headers.has.
  induction l as [|h l IH]; [discriminate|].
  cbn [existsb Headers.set_first]. rewrite (values_cons h l n).
  destruct (Headers.name_is k h) eqn:Hk; cbn [orb].
  - intros _. rewrite values_cons, values_filter_out.
    rewrite (name_is_same_name k n (fst h, v)), (name_is_same_name k n h Hk)
      by (unfold Headers.name_is in *; exact Hk).
    now destruct (String.eqb _ _).
  - intros Hhas. rewrite values_cons, (IH Hhas).
    destruct (String.eqb_spec (Js.toLowerCase k) (Js.toLowerCase n)) as [Heq|Hne];
      [|reflexivity].
    now rewrite (name_is_other k n h Heq), Hk.
Qed.

Lemma values_set l k v n :
  Headers.values (Headers.set l k v) n
  = if String.eqb (Js.toLowerCase k) (Js.toLowerCase n) then [v] else Headers.values l n.
Proof.
  unfold Headers.set. destruct (Headers.has l k) eqn:Hhas.
  - now apply values_set_first.
  - rewrite values_app, (values_cons (k, v) [] n), name_is_sym_eqb.
    destruct (String.eqb_spec (Js.toLowerCase k) (Js.toLowerCase n)) as [Heq|Hne].
    + rewrite has_values; [reflexivity|].
      now rewrite (has_other k n l Heq).
    + apply app_nil_r.
Qed.

Lemma values_append l k v n :
  Headers.values (Headers.append l k v) n
  = (Headers.values l n
     ++ if String.eqb (Js.toLowerCase k) (Js.toLowerCase n) then [v] else [])%list.
Proof.
  unfold Headers.append. rewrite values_app. f_equal.
  rewrite values_cons, name_is_sym_eqb.
  destruct (List.find (Headers.name_is k) l) as [h|] eqn:Hf; [|now destruct (String.eqb _ _)].
  apply List.find_some in Hf as [_ Hk]. apply name_is_spec in Hk. rewrite Hk.
  now destruct (String.eqb _ _).
Qed.

Lemma values_fill_pairs pairs l n :
  Headers.values (fold_left (fun acc '(name, value) => Headers.append acc name value) pairs l) n
  = (Headers.values l n ++ Headers.values pairs n)%list.
Proof.
  revert l. induction pairs as [|[k v] pairs IH]; intros l; cbn [fold_left].
  - change (Headers.values [] n) with (@nil string). now rewrite app_nil_r.
  - rewrite IH, values_append, (values_cons (k, v) pairs n), name_is_sym_eqb.
    rewrite <- app_assoc. now destruct (String.eqb _ _).
Qed.

(** The loop of lines 52-57, seen through [values]: a skipped name has no
    value, any other name has the last value iteration reported for it. *)
Lemma values_forEach_step pairs acc n :
  Headers.values
    (fold_left
       (fun a '(key, value) =>
          if negb (Js.includes hop_by_hop (Js.toLowerCase key))
          then Headers.set a key value else a)
       pairs acc) n
  = if Js.includes hop_by_hop (Js.toLowerCase n) then Headers.values acc n
    else match last (Headers.values pairs n) with
         | Some v => [v]
         | None => Headers.values acc n
         end.
Proof.
  revert acc. induction pairs as [|[k v] pairs IH]; intros acc.
  - cbn [fold_left]. change (Headers.values [] n) with (@nil string).
    now destruct (Js.includes hop_by_hop (Js.toLowerCase n)).
  - cbn [fold_left]. rewrite IH.
    change ((k, v) :: pairs) with ([(k, v)] ++ pairs)%list.
    rewrite (values_app [(k, v)] pairs n), last_app.
    rewrite (values_cons (k, v) [] n), name_is_sym_eqb.
    change (Headers.values [] n) with (@nil string).
    destruct (Js.includes hop_by_hop (Js.toLowerCase k)) eqn:Hk; cbn [negb snd].
    + destruct (Js.includes hop_by_hop (Js.toLowerCase n)) eqn:Hn; [reflexivity|].
      destruct (String.eqb_spec (Js.toLowerCase k) (Js.toLowerCase n)) as [Heq|Hne];
        [congruence|].
      now destruct (last (Headers.values pairs n)).
    + rewrite values_set.
      destruct (Js.includes hop_by_hop (Js.toLowerCase n)) eqn:Hn.
      * destruct (String.eqb_spec (Js.toLowerCase k) (Js.toLowerCase n)) as [Heq|Hne];
          [congruence | reflexivity].
      * destruct (last (Headers.values pairs n)); [reflexivity|].
        now destruct (String.eqb _ _).
Qed.

(** ** The relayed response *)

Lemma values_responseHeaders r n :
  Headers.values (responseHeaders r) n
  = if Js.includes hop_by_hop (Js.toLowerCase n) then []
    else match last (Headers.values (Headers.sort_and_combine (Response.headers r)) n) with
         | Some v => [v]
         | None => []
         end.
Proof. exact (values_forEach_step _ Headers.empty n). Qed.

Lemma relay_relayable r :
  relayable r = true ->
  relay r
  = inr {| Response.status := Response.status r;
           Response.statusText := Response.statusText r;
           Response.headers :=
             Headers.fill Headers.empty (Headers.of_Headers (responseHeaders r));
           Response.body := Response.body r |}.
Proof.
  unfold relayable, relay, Response.new.
  cbn [Response.init_status Response.init_statusText Response.init_headers from_option id].
  intros H. apply andb_prop in H as [H Hbody]. apply andb_prop in H as [Hrange Hphrase].
  rewrite Hrange, Hphrase. cbn [negb].
  destruct (Response.body r) as [stream|]; [|reflexivity].
  cbn [fmap option_fmap option_map Body.extract].
  apply negb_true_iff in Hbody. now rewrite Hbody.
Qed.

Lemma relay_not_relayable r :
  relayable r = false -> exists e, relay r = inl e.
Proof.
  unfold relayable, relay, Response.new.
  cbn [Response.init_status Response.init_statusText Response.init_headers from_option id].
  destruct ((200 <=? Response.status r) && (Response.status r <=? 599)); [|eauto].
  destruct (Response.reason_phrase (Response.statusText r)); [|eauto].
  cbn [negb andb].
  destruct (Response.body r) as [stream|]; [|discriminate].
  cbn [fmap option_fmap option_map Body.extract].
  destruct (Response.null_body_status (Response.status r)); [eauto | discriminate].
Qed.

Lemma set_cookie_not_skipped n :
  Js.toLowerCase n = "set-cookie" -> Js.includes hop_by_hop (Js.toLowerCase n) = false.
Proof. now intros ->. Qed.

(** What [get] answers on the relayed headers, for every name. *)
Lemma relayed_get r response n :
  relay r = inr response ->
  Headers.get (Response.headers response) n
  = if Js.includes hop_by_hop (Js.toLowerCase n) then None
    else if String.eqb (Js.toLowerCase n) "set-cookie"
         then last (Headers.values (Response.headers r) n)
         else Headers.get (Response.headers r) n.
Proof.
  intros Hrelay.
  destruct (relayable r) eqn:Hok;
    [|apply relay_not_relayable in Hok as [e He]; congruence].
  rewrite (relay_relayable r Hok) in Hrelay. injection Hrelay as <-.
  cbn [Response.headers]. unfold Headers.get at 1.
  unfold Headers.fill, Headers.empty. rewrite values_fill_pairs.
  change (Headers.values [] n) with (@nil string). cbn [app].
  rewrite values_sort_and_combine. unfold Headers.get at 1.
  rewrite values_responseHeaders, values_sort_and_combine.
  destruct (String.eqb_spec (Js.toLowerCase n) "set-cookie") as [Hsc|Hsc].
  - rewrite (set_cookie_not_skipped n Hsc).
    now destruct (last (Headers.values (Response.headers r) n)).
  - destruct (Js.includes hop_by_hop (Js.toLowerCase n)); [reflexivity|].
    now destruct (Headers.get (Response.headers r) n).
Qed.

Lemma handle_relayed env URL_host fetch_outcome request base host proxyResponse :
  configured env = Some base ->
  URL_host base = inr host ->
  fetch_outcome (targetUrl base (Request.url request)) (forwarded host request)
  = inr proxyResponse ->
  handle env URL_host fetch_outcome request
  = match relay proxyResponse with
    | inl e =>
        (inr proxy_failed,
         [log_line base request;
          fetch_call (targetUrl base (Request.url request)) (forwarded host request);
          caught e])
    | inr response =>
        (inr response,
         [log_line base request;
          fetch_call (targetUrl base (Request.url request)) (forwarded host request)])
    end.
Proof.
  intros Hc Hh Hf. rewrite (handle_configured _ _ _ _ _ Hc). cbn zeta.
  now rewrite Hh, Hf.
Qed.

(** The relayed headers of a successful run: the three skipped names are
    absent; every other name answers as on the fetched response, except
    that of several [set-cookie] headers only the last one is left. *)
Lemma handle_relayed_headers env URL_host fetch_outcome request base host proxyResponse :
  configured env = Some base ->
  URL_host base = inr host ->
  fetch_outcome (targetUrl base (Request.url request)) (forwarded host request)
  = inr proxyResponse ->
  relayable proxyResponse = true ->
  exists response trace,
    handle env URL_host fetch_outcome request = (inr response, trace)
    /\ forall name,
         Headers.get (Response.headers response) name
         = if Js.includes hop_by_hop (Js.toLowerCase name) then None
           else if String.eqb (Js.toLowerCase name) "set-cookie"
                then last (Headers.values (Response.headers proxyResponse) name)
                else Headers.get (Response.headers proxyResponse) name.
Proof.
  intros Hc Hh Hf Hok. rewrite (handle_relayed _ _ _ _ _ _ _ Hc Hh Hf).
  pose proof (relay_relayable _ Hok) as Hr. rewrite Hr.
  eexists _, _. split; [reflexivity|].
  intros name. now apply relayed_get.
Qed.

(** C5: the code at a response that sets two cookies.  The skipped
    headers are gone and [Content-Type] is kept, but [headers.set]
    replaces the first [Set-Cookie] by the second: the session cookie of
    the fetched response is not in the relayed one. *)
Theorem C5_first_set_cookie_lost :
  let run := handle Scenario.env Scenario.URL_host Scenario.sign_in Scenario.post_users in
  Headers.entries (Response.headers Scenario.signed_in)
  = [("connection", "keep-alive");
     ("content-type", "application/json");
     ("set-cookie", "session=abc; Path=/; HttpOnly");
     ("set-cookie", "theme=dark; Path=/");
     ("transfer-encoding", "chunked")]
  /\ fst run
     = inr {| Response.status := 200;
              Response.statusText := "OK";
              Response.headers :=
                [("content-type", "application/json");
                 ("set-cookie", "theme=dark; Path=/")];
              Response.body := Some [list_byte_of_string "{}"] |}
  /\ match fst run with
     | inr response =>
         Headers.entries (Response.headers response)
         = [("content-type", "application/json");
            ("set-cookie", "theme=dark; Path=/")]
     | inl _ => False
     end.
Proof. repeat split. Qed.

(** C8, as stated, fails: a fetched response whose status lies outside
    200..599 cannot be rebuilt; the constructor throws inside [try] and
    the answer is the 502 of the [catch]. *)
Lemma C8_status_999_answered_502 :
  let run := handle Scenario.env Scenario.URL_host Scenario.gatekeeper Scenario.get_user in
  map fst (fetches (snd run)) = ["http://api.internal:8080/users/42?active=true"]
  /\ Scenario.gatekeeper "http://api.internal:8080/users/42?active=true"
       (forwarded "api.internal:8080" Scenario.get_user) = inr Scenario.denied
  /\ Response.status Scenario.denied = 999
  /\ fst run = inr proxy_failed
  /\ Response.status proxy_failed = 502.
Proof. repeat split. Qed.

(** C8, amended: for every fetched response that [new Response] accepts
    (status in 200..599, status text a reason phrase, no body with 204,
    205 or 304) the relayed status and status text are those of the
    fetched response and the body is the same stream. *)
Theorem C8_status_and_body_relayed
    (env : ProcessEnv) (URL_host : string -> Js.Error + string)
    (fetch_outcome : string -> RequestInit.t -> Js.Error + Response.t)
    (request : Request.t) (base host : string) (proxyResponse : Response.t) :
  configured env = Some base ->
  URL_host base = inr host ->
  fetch_outcome (targetUrl base (Request.url request)) (forwarded host request)
  = inr proxyResponse ->
  relayable proxyResponse = true ->
  exists response trace,
    handle env URL_host fetch_outcome request = (inr response, trace)
    /\ Response.status response = Response.status proxyResponse
    /\ Response.statusText response = Response.statusText proxyResponse
    /\ Response.body response = Response.body proxyResponse.
Proof.
  intros Hc Hh Hf Hok. rewrite (handle_relayed _ _ _ _ _ _ _ Hc Hh Hf).
  rewrite (relay_relayable _ Hok).
  eexists _, _. repeat split.
Qed.

Lemma C8_witness :
  configured Scenario.env = Some Scenario.base
  /\ Scenario.URL_host Scenario.base = inr "api.internal:8080"
  /\ Scenario.backend (targetUrl Scenario.base (Request.url Scenario.get_user))
       (forwarded "api.internal:8080" Scenario.get_user) = inr Scenario.ok
  /\ relayable Scenario.ok = true
  /\ exists response trace,
       handle Scenario.env Scenario.URL_host Scenario.backend Scenario.get_user
       = (inr response, trace)
       /\ Response.status response = Response.status Scenario.ok
       /\ Response.statusText response = Response.statusText Scenario.ok
       /\ Response.body response = Response.body Scenario.ok.
Proof.
  split; [reflexivity|]. split; [reflexivity|]. split; [reflexivity|]. split; [reflexivity|].
  apply (C8_status_and_body_relayed Scenario.env Scenario.URL_host Scenario.backend
           Scenario.get_user Scenario.base "api.internal:8080" Scenario.ok); reflexivity.
Defined.

(** ** The outbound request *)

Lemma fromEntries_fold (pairs : list (string * string)) (o : gmap string string) k :
  fold_left (fun o '(key, v) => <[key := v]> o) pairs o !! k
  = match last (map snd (List.filter (fun e => String.eqb (fst e) k) pairs)) with
    | Some v => Some v
    | None => o !! k
    end.
Proof.
  revert o. induction pairs as [|[key v] pairs IH]; intros o; [reflexivity|].
  cbn [fold_left List.filter fst]. rewrite IH.
  destruct (String.eqb_spec key k) as [->|Hne].
  - cbn [map snd]. rewrite last_cons.
    destruct (last (map snd _)); [reflexivity|]. apply lookup_insert_eq.
  - destruct (last (map snd _)); [reflexivity|]. now apply lookup_insert_ne.
Qed.

Lemma fromEntries_lookup pairs k :
  Js.Object_fromEntries pairs !! k
  = last (map snd (List.filter (fun e => String.eqb (fst e) k) pairs)).
Proof.
  unfold Js.Object_fromEntries. rewrite fromEntries_fold.
  destruct (last _); [reflexivity|]. apply lookup_empty.
Qed.

Lemma entries_keys_lowercase l e :
  In e (Headers.entries l) -> Js.toLowerCase (fst e) = fst e.
Proof.
  unfold Headers.entries, Headers.sort_and_combine.
  rewrite in_flat_map. intros (name & Hname & He).
  rewrite entries_of_pairs, in_map_iff in He. destruct He as (v & <- & _).
  now apply (sorted_names_lowercase l).
Qed.

Lemma filter_key_lowercase (pairs : list (string * string)) k :
  (forall e, In e pairs -> Js.toLowerCase (fst e) = fst e) ->
  map snd (List.filter (fun e => String.eqb (fst e) k) pairs)
  = if String.eqb (Js.toLowerCase k) k then Headers.values pairs k else [].
Proof.
  intros Hlow. induction pairs as [|e pairs IH].
  - now destruct (String.eqb _ _).
  - assert (He : Js.toLowerCase (fst e) = fst e) by (apply Hlow; now left).
    assert (IH' := IH (fun e' H => Hlow e' (or_intror H))). clear IH.
    cbn [List.filter]. rewrite values_cons. unfold Headers.name_is. rewrite He.
    destruct (String.eqb_spec (Js.toLowerCase k) k) as [Hk|Hk].
    + rewrite Hk. destruct (String.eqb (fst e) k); cbn [map]; now rewrite IH'.
    + destruct (String.eqb_spec (fst e) k) as [Heq|_]; [|exact IH'].
      exfalso. apply Hk. now rewrite <- Heq.
Qed.

(** The object [Object.fromEntries(request.headers.entries())], key by
    key: it has lowercase keys only; [set-cookie] holds the last of its
    values and any other name its combined value. *)
Lemma entries_object_lookup l k :
  Js.Object_fromEntries (Headers.entries l) !! k
  = if String.eqb (Js.toLowerCase k) k
    then if String.eqb k "set-cookie" then last (Headers.values l k) else Headers.get l k
    else None.
Proof.
  rewrite fromEntries_lookup, filter_key_lowercase by apply entries_keys_lowercase.
  destruct (String.eqb_spec (Js.toLowerCase k) k) as [Hk|Hk]; [|reflexivity].
  unfold Headers.entries. rewrite values_sort_and_combine, Hk.
  destruct (String.eqb k "set-cookie"); [reflexivity|].
  now destruct (Headers.get l k).
Qed.

Lemma forwarded_lookup host request k :
  RequestInit.headers (forwarded host request) !! k
  = if String.eqb k "host" then Some host
    else if String.eqb (Js.toLowerCase k) k
         then if String.eqb k "set-cookie"
              then last (Headers.values (Request.headers request) k)
              else Headers.get (Request.headers request) k
         else None.
Proof.
  cbn [forwarded RequestInit.headers].
  destruct (String.eqb_spec k "host") as [->|Hne].
  - apply lookup_insert_eq.
  - rewrite lookup_insert_ne by congruence. apply entries_object_lookup.
Qed.

(** C7, as stated, fails: iteration lists a repeated [set-cookie] header
    once per value, and the object built from the entries keeps the last
    one only. *)
Lemma C7_repeated_header_collapsed :
  let run := handle Scenario.env Scenario.URL_host Scenario.backend Scenario.twice in
  Headers.entries (Request.headers Scenario.twice)
  = [("host", "dashboard.example"); ("set-cookie", "a=1"); ("set-cookie", "b=2")]
  /\ map (fun call => RequestInit.headers (snd call) !! "set-cookie") (fetches (snd run))
     = [Some "b=2"].
Proof. split; vm_compute; reflexivity. Qed.

(** C7, amended: the handler calls [fetch] with the method of the inbound
    request and with a header object that holds, under [host], the host of
    the base URL and, under every other lowercase name, what the inbound
    headers hold for that name: the combined value, or for [set-cookie]
    the last of its values.  It holds nothing else. *)
Theorem C7_outbound_headers
    (env : ProcessEnv) (URL_host : string -> Js.Error + string)
    (fetch_outcome : string -> RequestInit.t -> Js.Error + Response.t)
    (request : Request.t) (base host : string) :
  configured env = Some base ->
  URL_host base = inr host ->
  exists init,
    fetches (snd (handle env URL_host fetch_outcome request))
    = [(targetUrl base (Request.url request), init)]
    /\ RequestInit.method init = Request.method request
    /\ RequestInit.headers init
       = <["host" := host]>
           (Js.Object_fromEntries (Headers.entries (Request.headers request)))
    /\ forall name,
         RequestInit.headers init !! name
         = if String.eqb name "host" then Some host
           else if String.eqb (Js.toLowerCase name) name
                then if String.eqb name "set-cookie"
                     then last (Headers.values (Request.headers request) name)
                     else Headers.get (Request.headers request) name
                else None.
Proof.
  intros Hc Hh. exists (forwarded host request).
  split; [|split; [reflexivity|split; [reflexivity|apply forwarded_lookup]]].
  rewrite (handle_configured _ _ _ _ _ Hc). cbn zeta. rewrite Hh.
  destruct (fetch_outcome _ _) as [e|r]; [|destruct (relay r)]; reflexivity.
Qed.

Lemma C7_witness :
  configured Scenario.env = Some Scenario.base
  /\ Scenario.URL_host Scenario.base = inr "api.internal:8080"
  /\ exists init,
       fetches (snd (handle Scenario.env Scenario.URL_host Scenario.backend Scenario.get_user))
       = [(targetUrl Scenario.base (Request.url Scenario.get_user), init)]
       /\ RequestInit.method init = Request.method Scenario.get_user
       /\ RequestInit.headers init
          = <["host" := "api.internal:8080"]>
              (Js.Object_fromEntries (Headers.entries (Request.headers Scenario.get_user)))
       /\ forall name,
            RequestInit.headers init !! name
            = if String.eqb name "host" then Some "api.internal:8080"
              else if String.eqb (Js.toLowerCase name) name
                   then if String.eqb name "set-cookie"
                        then last (Headers.values (Request.headers Scenario.get_user) name)
                        else Headers.get (Request.headers Scenario.get_user) name
                   else None.
Proof.
  split; [reflexivity|]. split; [reflexivity|].
  apply (C7_outbound_headers Scenario.env Scenario.URL_host Scenario.backend
           Scenario.get_user Scenario.base "api.internal:8080"); reflexivity.
Defined.

(** ** The forwarded body *)

Lemma forwarded_body host request :
  RequestInit.body (forwarded host request)
  = if String.eqb (Request.method request) "GET" || String.eqb (Request.method request) "HEAD"
    then None
    else Some (Request.text request).
Proof.
  cbn [forwarded RequestInit.body].
  now destruct (String.eqb _ "GET"), (String.eqb _ "HEAD").
Qed.

Lemma to_byte_val b : Encoding.to_byte (Encoding.byte_val b) = b.
Proof.
  unfold Encoding.to_byte, Encoding.byte_val.
  pose proof (Byte.to_N_bounded b) as Hb.
  rewrite Z.mod_small by lia. rewrite N2Z.id. now rewrite Byte.of_to_N.
Qed.

Lemma run_decoder_ascii bs :
  Forall (fun b => Encoding.byte_val b <= 0x7F) bs ->
  Encoding.run_decoder Encoding.initial bs = map Encoding.byte_val bs.
Proof.
  induction 1 as [|b bs Hb _ IH]; [reflexivity|].
  cbn [Encoding.run_decoder]. unfold Encoding.step.
  cbn [Encoding.bytes_needed Encoding.initial].
  change (0 =? 0) with true. cbv iota.
  unfold Encoding.lead. apply Z.leb_le in Hb. rewrite Hb.
  cbn [app map]. now rewrite IH.
Qed.

Lemma utf8_decode_ascii bs :
  Forall (fun b => Encoding.byte_val b <= 0x7F) bs ->
  Encoding.utf8_decode bs = map Encoding.byte_val bs.
Proof.
  intros H. rewrite <- (run_decoder_ascii bs H).
  destruct bs as [|b bs]; [reflexivity|].
  apply Forall_cons_1 in H as [Hb _].
  destruct b; try reflexivity; vm_compute in Hb; now exfalso.
Qed.

(** A body of ASCII bytes is sent as it came. *)
Lemma ascii_body_roundtrip bs :
  Forall (fun b => Encoding.byte_val b <= 0x7F) bs ->
  Encoding.utf8_encode (Encoding.utf8_decode bs) = bs.
Proof.
  intros H. rewrite (utf8_decode_ascii bs H).
  unfold Encoding.utf8_encode.
  induction H as [|b bs Hb _ IH]; [reflexivity|].
  cbn [map flat_map]. rewrite IH.
  unfold Encoding.encode_scalar. apply Z.leb_le in Hb. rewrite Hb.
  now rewrite to_byte_val.
Qed.

(** ** UTF-8 text survives the round trip *)

Lemma lor_disjoint a l k :
  0 <= k -> 0 <= l < 2 ^ k -> Z.lor (a * 2 ^ k) l = a * 2 ^ k + l.
Proof.
  intros Hk Hl. rewrite <- Z.add_lor_land.
  assert (Hland : Z.land (a * 2 ^ k) l = 0); [|lia].
  apply Z.bits_inj'. intros n Hn. rewrite Z.land_spec, Z.bits_0.
  destruct (Z.ltb_spec n k) as [Hlt|Hge].
  - now rewrite Z.mul_pow2_bits_low.
  - destruct (Z.eq_dec l 0) as [->|Hl0]; [now rewrite Z.bits_0, andb_false_r|].
    rewrite (Z.bits_above_log2 l n), andb_false_r; [reflexivity|lia|].
    assert (Z.log2 l < k) by (apply Z.log2_lt_pow2; lia). lia.
Qed.

Lemma byte_val_to_byte z : 0 <= z < 256 -> Encoding.byte_val (Encoding.to_byte z) = z.
Proof.
  intros Hz. unfold Encoding.byte_val, Encoding.to_byte.
  rewrite Z.mod_small by lia.
  destruct (Byte.of_N (Z.to_N z)) as [b|] eqn:Hb.
  - apply Byte.to_of_N in Hb. lia.
  - exfalso. pose proof (Byte.to_of_N_option_map (Z.to_N z)) as H.
    rewrite Hb in H. cbn in H.
    destruct (N.leb_spec (Z.to_N z) 255); [discriminate|lia].
Qed.

Ltac arith := Z.div_mod_to_equations; lia.

Ltac decide_test :=
  match goal with
  | |- context [Z.leb ?a ?b] =>
      first [ rewrite (proj2 (Z.leb_le a b)) by arith
            | rewrite (proj2 (Z.leb_gt a b)) by arith ]
  | |- context [Z.eqb ?a ?b] =>
      first [ rewrite (proj2 (Z.eqb_eq a b)) by arith
            | rewrite (proj2 (Z.eqb_neq a b)) by arith ]
  end.

Ltac decide_tests := repeat (decide_test; cbn [andb negb orb]).

Lemma shiftr_6 c : Z.shiftr c 6 = c / 64.
Proof. now rewrite Z.shiftr_div_pow2. Qed.
Lemma shiftr_12 c : Z.shiftr c 12 = c / 4096.
Proof. now rewrite Z.shiftr_div_pow2. Qed.
Lemma shiftr_18 c : Z.shiftr c 18 = c / 262144.
Proof. now rewrite Z.shiftr_div_pow2. Qed.
Lemma shiftl_6 c : Z.shiftl c 6 = c * 64.
Proof. now rewrite Z.shiftl_mul_pow2. Qed.
Lemma land_3F c : Z.land c 0x3F = c mod 64.
Proof. change 0x3F with (Z.ones 6). now rewrite Z.land_ones. Qed.
Lemma land_1F c : Z.land c 0x1F = c mod 32.
Proof. change 0x1F with (Z.ones 5). now rewrite Z.land_ones. Qed.
Lemma land_F c : Z.land c 0xF = c mod 16.
Proof. change 0xF with (Z.ones 4). now rewrite Z.land_ones. Qed.
Lemma land_7 c : Z.land c 0x7 = c mod 8.
Proof. change 0x7 with (Z.ones 3). now rewrite Z.land_ones. Qed.
Lemma lor_80 l : 0 <= l < 64 -> Z.lor 0x80 l = 128 + l.
Proof. intros H. change 0x80 with (2 * 2 ^ 6). now rewrite lor_disjoint. Qed.
Lemma lor_C0 l : 0 <= l < 32 -> Z.lor 0xC0 l = 192 + l.
Proof. intros H. change 0xC0 with (6 * 2 ^ 5). now rewrite lor_disjoint. Qed.
Lemma lor_E0 l : 0 <= l < 16 -> Z.lor 0xE0 l = 224 + l.
Proof. intros H. change 0xE0 with (14 * 2 ^ 4). now rewrite lor_disjoint. Qed.
Lemma lor_F0 l : 0 <= l < 8 -> Z.lor 0xF0 l = 240 + l.
Proof. intros H. change 0xF0 with (30 * 2 ^ 3). now rewrite lor_disjoint. Qed.
Lemma lor_acc x l : 0 <= l < 64 -> Z.lor (x * 64) l = x * 64 + l.
Proof. intros H. change 64 with (2 ^ 6). now rewrite lor_disjoint. Qed.

Ltac run_decoder_steps :=
  cbn [Encoding.feed];
  rewrite ?byte_val_to_byte by arith;
  unfold Encoding.step, Encoding.lead;
  repeat (cbn [Encoding.bytes_needed Encoding.initial Encoding.lower_boundary
               Encoding.upper_boundary Encoding.bytes_seen Encoding.code_point
               andb negb orb app];
          decide_test);
  cbn [app];
  rewrite ?land_1F, ?land_F, ?land_7, ?land_3F, ?shiftl_6;
  rewrite ?lor_acc by arith;
  repeat f_equal; arith.

Lemma feed_1 c :
  0 <= c <= 0x7F ->
  Encoding.feed Encoding.initial (Encoding.encode_scalar c) = ([c], Encoding.initial).
Proof.
  intros Hc. unfold Encoding.encode_scalar. decide_tests.
  run_decoder_steps.
Qed.

Lemma feed_2 c :
  0x80 <= c <= 0x7FF ->
  Encoding.feed Encoding.initial (Encoding.encode_scalar c) = ([c], Encoding.initial).
Proof.
  intros Hc. unfold Encoding.encode_scalar. decide_tests.
  rewrite shiftr_6, land_3F, lor_C0, lor_80 by arith.
  run_decoder_steps.
Qed.

Lemma feed_3 c :
  0x800 <= c <= 0xD7FF \/ 0xE000 <= c <= 0xFFFF ->
  Encoding.feed Encoding.initial (Encoding.encode_scalar c) = ([c], Encoding.initial).
Proof.
  intros Hc. unfold Encoding.encode_scalar. decide_tests.
  rewrite shiftr_12, shiftr_6, !land_3F, lor_E0, !lor_80 by arith.
  assert (Hcases : c < 0x1000 \/ (0x1000 <= c < 0xD000 \/ 0xE000 <= c) \/ 0xD000 <= c <= 0xD7FF)
    by lia.
  destruct Hcases as [H|[H|H]]; run_decoder_steps.
Qed.

Lemma feed_4 c :
  0x10000 <= c <= 0x10FFFF ->
  Encoding.feed Encoding.initial (Encoding.encode_scalar c) = ([c], Encoding.initial).
Proof.
  intros Hc. unfold Encoding.encode_scalar. decide_tests.
  rewrite shiftr_18, shiftr_12, shiftr_6, !land_3F, lor_F0, !lor_80 by arith.
  assert (Hcases : c < 0x40000 \/ 0x40000 <= c < 0x100000 \/ 0x100000 <= c) by lia.
  destruct Hcases as [H|[H|H]]; run_decoder_steps.
Qed.

Lemma feed_encode_scalar c :
  Encoding.scalar c = true ->
  Encoding.feed Encoding.initial (Encoding.encode_scalar c) = ([c], Encoding.initial).
Proof.
  unfold Encoding.scalar. rewrite orb_true_iff, !andb_true_iff, !Z.leb_le. intros Hc.
  destruct (Z.le_gt_cases c 0x7F); [apply feed_1; lia|].
  destruct (Z.le_gt_cases c 0x7FF); [apply feed_2; lia|].
  destruct (Z.le_gt_cases c 0xFFFF); [apply feed_3; lia | apply feed_4; lia].
Qed.

Lemma run_decoder_feed d bs rest :
  Encoding.run_decoder d (bs ++ rest)%list
  = (fst (Encoding.feed d bs) ++ Encoding.run_decoder (snd (Encoding.feed d bs)) rest)%list.
Proof.
  revert d. induction bs as [|b bs IH]; intros d; [reflexivity|].
  cbn [app Encoding.run_decoder Encoding.feed].
  destruct (Encoding.step d (Encoding.byte_val b)) as [out d'].
  rewrite IH. destruct (Encoding.feed d' bs) as [out' d''].
  cbn [fst snd]. now rewrite <- app_assoc.
Qed.

Lemma run_decoder_encode t :
  Forall (fun c => Encoding.scalar c = true) t ->
  Encoding.run_decoder Encoding.initial (Encoding.utf8_encode t) = t.
Proof.
  unfold Encoding.utf8_encode.
  induction 1 as [|c t Hc _ IH]; [reflexivity|].
  cbn [flat_map]. rewrite run_decoder_feed, (feed_encode_scalar c Hc).
  cbn [fst snd app]. now rewrite IH.
Qed.

Lemma utf8_decode_cases bs :
  Encoding.utf8_decode bs = Encoding.run_decoder Encoding.initial bs
  \/ exists rest, bs = xef :: xbb :: xbf :: rest.
Proof.
  destruct bs as [|b1 [|b2 [|b3 rest]]]; try (left; reflexivity);
    destruct b1; try (left; reflexivity);
    destruct b2; try (left; reflexivity);
    destruct b3; try (left; reflexivity).
  right. now exists rest.
Qed.

(** A text of scalar values that does not begin with U+FEFF is what its
    UTF-8 bytes decode to, so a body holding such bytes is sent as it
    came. *)
Lemma utf8_text_roundtrip t :
  Forall (fun c => Encoding.scalar c = true) t ->
  head t <> Some 0xFEFF ->
  Encoding.utf8_encode (Encoding.utf8_decode (Encoding.utf8_encode t))
  = Encoding.utf8_encode t.
Proof.
  intros Ht Hbom. f_equal.
  destruct (utf8_decode_cases (Encoding.utf8_encode t)) as [->|[rest Hrest]].
  - now apply run_decoder_encode.
  - exfalso. apply Hbom.
    rewrite <- (run_decoder_encode t Ht), Hrest. reflexivity.
Qed.

(** What [fetch] is given as body, for every request. *)
Lemma forwarded_sent_bytes host request :
  RequestInit.sent_bytes (forwarded host request)
  = if String.eqb (Request.method request) "GET" || String.eqb (Request.method request) "HEAD"
    then None
    else Some (Encoding.utf8_encode
                 (match Request.body request with
                  | Some bytes => Encoding.utf8_decode bytes
                  | None => []
                  end)).
Proof.
  unfold RequestInit.sent_bytes. rewrite forwarded_body.
  now destruct (_ || _).
Qed.

(** C6: the code at a POST whose body is not UTF-8 text.  [request.text()]
    decodes the body and [fetch] encodes the decoded string again, so the
    byte 0x8B of the inbound body goes out as the three bytes of U+FFFD.
    A GET with the same body is forwarded without body. *)
Theorem C6_binary_body_rewritten :
  let run := handle Scenario.env Scenario.URL_host Scenario.backend Scenario.upload in
  Request.method Scenario.upload = "POST"
  /\ Request.body Scenario.upload = Some [x1f; x8b; x08]
  /\ map (fun call => RequestInit.body (snd call)) (fetches (snd run))
     = [Some [0x1F; 0xFFFD; 0x08]]
  /\ map (fun call => RequestInit.sent_bytes (snd call)) (fetches (snd run))
     = [Some [x1f; xef; xbf; xbd; x08]]
  /\ map (fun call => RequestInit.sent_bytes (snd call))
       (fetches (snd (handle Scenario.env Scenario.URL_host Scenario.backend
                        {| Request.method := "GET";
                           Request.url := Request.url Scenario.upload;
                           Request.headers := Request.headers Scenario.upload;
                           Request.body := Request.body Scenario.upload |})))
     = [None].
Proof. repeat split. Qed.

(** ** Totality *)

(** The handler never throws: every run ends with a response, having
    called [fetch] at most once. *)
Lemma handle_returns env URL_host fetch_outcome request :
  exists response,
    fst (handle env URL_host fetch_outcome request) = inr response
    /\ (length (fetches (snd (handle env URL_host fetch_outcome request))) <= 1)%nat.
Proof.
  destruct (configured env) as [base|] eqn:Hc.
  - rewrite (handle_configured _ _ _ _ _ Hc). cbn zeta.
    destruct (URL_host base) as [e|host]; [exists proxy_failed; cbn; split; [reflexivity|lia]|].
    destruct (fetch_outcome _ _) as [e|r];
      [exists proxy_failed; cbn; split; [reflexivity|lia]|].
    destruct (relay r) as [e|response];
      [exists proxy_failed | exists response]; cbn; (split; [reflexivity|lia]).
  - rewrite (handle_unconfigured _ _ _ _ Hc). exists configuration_missing.
    cbn. split; [reflexivity|lia].
Qed.

(** ** Further properties of the handler *)

Lemma logs_app (tr tr' : Trace) : logs (tr ++ tr')%list = (logs tr ++ logs tr')%list.
Proof. unfold logs. apply flat_map_app. Qed.

Lemma relay_iff_relayable r :
  relayable r = true <-> exists response, relay r = inr response.
Proof.
  split.
  - intros H. rewrite (relay_relayable r H). eauto.
  - intros [response H]. destruct (relayable r) eqn:Hr; [reflexivity|].
    apply relay_not_relayable in Hr as [e He]. congruence.
Qed.


(** X2: [INTERNAL_API_URL] takes precedence.  When it is a non-empty
    string it is the base URL and [API_URL] plays no part: the run is the
    run with [API_URL] unset. *)
Theorem X2_primary_variable_first
    (URL_host : string -> Js.Error + string)
    (fetch_outcome : string -> RequestInit.t -> Js.Error + Response.t)
    (request : Request.t) (c : ascii) (s : string) (api : option string) :
  configured {| INTERNAL_API_URL := Some (String c s); API_URL := api |} = Some (String c s)
  /\ handle {| INTERNAL_API_URL := Some (String c s); API_URL := api |}
       URL_host fetch_outcome request
     = handle {| INTERNAL_API_URL := Some (String c s); API_URL := None |}
         URL_host fetch_outcome request
  /\ Forall (fun call => fst call = targetUrl (String c s) (Request.url request))
       (fetches (snd (handle {| INTERNAL_API_URL := Some (String c s); API_URL := api |}
                        URL_host fetch_outcome request))).
Proof.
  split; [reflexivity|]. split.
  - apply handle_same_base. reflexivity.
  - now apply (fetches_of_run _ URL_host fetch_outcome (String c s) request).
Qed.

Lemma match_literal_prefix lit s rest :
  Regex.match_literal lit s = Some rest -> s = lit +:+ rest.
Proof.
  revert s. induction lit as [|a lit IH]; intros s H.
  - destruct s; injection H as <-; reflexivity.
  - destruct s as [|b s]; [discriminate H|]. simpl in H.
    destruct (Ascii.eqb_spec a b) as [->|]; [|discriminate H].
    apply IH in H. subst s. reflexivity.
Qed.

Lemma append_prefix (a rest : string) : String.prefix a (a +:+ rest) = true.
Proof.
  induction a as [|x a IH]; [destruct rest; reflexivity|].
  change (String x a +:+ rest) with (String x (a +:+ rest)).
  change (String.prefix (String x a) (String x (a +:+ rest)))
    with (if ascii_dec x x then String.prefix a (a +:+ rest) else false).
  destruct (ascii_dec x x); [exact IH | congruence].
Qed.

(** X3: a path that does not begin with [/api/op] is left as it is: the
    regular expression does not match, and the target is the base URL, a
    slash and the whole path (which brings its own leading slash),
    followed by the query string. *)
Theorem X3_unmatched_path_kept (base : string) (url : URL.t) :
  String.prefix "/api/op" (URL.pathname url) = false ->
  pathAfterProxy url = URL.pathname url
  /\ targetUrl base url = base +:+ "/" +:+ URL.pathname url +:+ URL.search url.
Proof.
  intros H.
  assert (Hp : pathAfterProxy url = URL.pathname url).
  { unfold pathAfterProxy, Regex.replace_api_op.
    destruct (Regex.match_literal "/api/op" (URL.pathname url)) as [rest|] eqn:Hm;
      [|reflexivity].
    apply match_literal_prefix in Hm. rewrite Hm, append_prefix in H. discriminate H. }
  split; [exact Hp|]. unfold targetUrl. now rewrite Hp.
Qed.

Lemma X3_witness :
  String.prefix "/api/op" (URL.pathname Scenario.health) = false
  /\ pathAfterProxy Scenario.health = URL.pathname Scenario.health
  /\ targetUrl Scenario.base Scenario.health
     = Scenario.base +:+ "/" +:+ URL.pathname Scenario.health
         +:+ URL.search Scenario.health.
Proof.
  split; [reflexivity|].
  apply (X3_unmatched_path_kept Scenario.base Scenario.health). reflexivity.
Defined.

(** X4: the rewrite only ever cuts at the start, and cuts at most one
    slash.  Every path is one of the three prefixes (nothing, [/api/op],
    [/api/op/]) followed by the remainder; so the remainder is a suffix of
    the path, and [/api/op/] followed by anything gives back exactly that
    anything, further slashes and further occurrences of the prefix
    included. *)
Theorem X4_remainder_is_suffix :
  (forall url,
     exists cut,
       In cut [""; "/api/op"; "/api/op/"]
       /\ URL.pathname url = cut +:+ pathAfterProxy url)
  /\ (forall rest search,
        pathAfterProxy {| URL.pathname := "/api/op/" +:+ rest; URL.search := search |} = rest).
Proof.
  split; [|reflexivity].
  intros url. unfold pathAfterProxy, Regex.replace_api_op.
  destruct (Regex.match_literal "/api/op" (URL.pathname url)) as [rest|] eqn:Hm.
  - apply match_literal_prefix in Hm.
    destruct rest as [|c rest]; [exists "/api/op"; cbn; auto|].
    cbn [Regex.match_optional].
    destruct (Ascii.eqb_spec c "/") as [->|Hne].
    + exists "/api/op/". split; [cbn; auto | exact Hm].
    + exists "/api/op". split; [cbn; auto | exact Hm].
  - exists "". split; [cbn; auto | reflexivity].
Qed.

(** X5: what goes to the console.  Without a base URL nothing is
    written.  With one, the first event is the one [console.log] line,
    naming method, path and target; [console.error] is written exactly
    when the [catch] runs: once, as the last event, with the error that
    was thrown, and the answer is then the 502.  A relayed answer writes
    no error. *)
Theorem X5_console_discipline
    (env : ProcessEnv) (URL_host : string -> Js.Error + string)
    (fetch_outcome : string -> RequestInit.t -> Js.Error + Response.t)
    (request : Request.t) :
  let run := handle env URL_host fetch_outcome request in
  match configured env with
  | None => snd run = []
  | Some base =>
      head (snd run) = Some (log_line base request)
      /\ logs (snd run)
         = ["[API Proxy] " +:+ Request.method request +:+ " "
              +:+ URL.pathname (Request.url request) +:+ " -> "
              +:+ targetUrl base (Request.url request)]
      /\ ((errors (snd run) = []
           /\ exists proxyResponse response,
                relay proxyResponse = inr response /\ fst run = inr response)
          \/ (exists e,
                errors (snd run) = [e]
                /\ last (snd run) = Some (caught e)
                /\ fst run = inr proxy_failed))
  end.
Proof.
  cbn zeta. destruct (configured env) as [base|] eqn:Hc.
  - rewrite (handle_configured _ _ _ _ _ Hc). cbn zeta.
    destruct (URL_host base) as [e|host];
      [split; [reflexivity|split; [reflexivity|right; now exists e]]|].
    destruct (fetch_outcome _ _) as [e|r];
      [split; [reflexivity|split; [reflexivity|right; now exists e]]|].
    destruct (relay r) as [e|response] eqn:Hr;
      [split; [reflexivity|split; [reflexivity|right; now exists e]]|].
    split; [reflexivity|]. split; [reflexivity|]. left. split; [reflexivity|].
    now exists r, response.
  - now rewrite (handle_unconfigured _ _ _ _ Hc).
Qed.

Lemma fetch_calls_of_run env URL_host fetch_outcome request base :
  configured env = Some base ->
  fetches (snd (handle env URL_host fetch_outcome request))
  = match URL_host base with
    | inl _ => []
    | inr host => [(targetUrl base (Request.url request), forwarded host request)]
    end.
Proof.
  intros Hc. rewrite (handle_configured _ _ _ _ _ Hc). cbn zeta.
  destruct (URL_host base) as [e|host]; [reflexivity|].
  destruct (fetch_outcome _ _) as [e|r]; [|destruct (relay r)]; reflexivity.
Qed.

(** X6: [fetch] is called exactly once when the base URL parses, whatever
    happens afterwards, and not at all when [new URL(base)] throws: the
    host is computed among the arguments of the call, before the call.
    The one call goes to the target URL with the forwarded options. *)
Theorem X6_fetch_once_iff_base_parses
    (env : ProcessEnv) (URL_host : string -> Js.Error + string)
    (fetch_outcome : string -> RequestInit.t -> Js.Error + Response.t)
    (request : Request.t) (base : string) :
  configured env = Some base ->
  fetches (snd (handle env URL_host fetch_outcome request))
  = match URL_host base with
    | inl _ => []
    | inr host => [(targetUrl base (Request.url request), forwarded host request)]
    end.
Proof. apply fetch_calls_of_run. Qed.

Lemma X6_witness :
  configured Scenario.schemeless = Some "api.internal"
  /\ Scenario.URL_host "api.internal" = inl (Js.TypeError "Invalid URL")
  /\ fetches (snd (handle Scenario.schemeless Scenario.URL_host Scenario.backend
                     Scenario.get_user))
     = match Scenario.URL_host "api.internal" with
       | inl _ => []
       | inr host =>
           [(targetUrl "api.internal" (Request.url Scenario.get_user),
             forwarded host Scenario.get_user)]
       end.
Proof.
  split; [reflexivity|]. split; [reflexivity|].
  apply (X6_fetch_once_iff_base_parses Scenario.schemeless Scenario.URL_host
           Scenario.backend Scenario.get_user "api.internal").
  reflexivity.
Defined.

Lemma not_relayable r :
  (Response.status r < 200
   \/ 599 < Response.status r
   \/ Response.reason_phrase (Response.statusText r) = false
   \/ (Response.body r <> None /\ In (Response.status r) [204; 205; 304])) ->
  relayable r = false.
Proof.
  unfold relayable. intros [H|[H|[H|[Hb H]]]].
  - apply Z.leb_gt in H. now rewrite H.
  - apply Z.leb_gt in H. rewrite H. now rewrite andb_false_r.
  - rewrite H. now rewrite andb_false_r.
  - destruct (Response.body r); [|congruence].
    cbn in H. destruct H as [<-|[<-|[<-|[]]]]; apply andb_false_iff; right; reflexivity.
Qed.

(** X7: a fetched response that cannot be rebuilt is answered 502.  When
    [fetch] succeeds but the response has a status outside 200..599, a
    status text that is no reason phrase, or a body together with status
    204, 205 or 304, the [Response] constructor throws inside [try]: the
    answer is the 502, after exactly one [fetch], with the constructor's
    error written to [console.error]. *)
Theorem X7_unrelayable_answered_502
    (env : ProcessEnv) (URL_host : string -> Js.Error + string)
    (fetch_outcome : string -> RequestInit.t -> Js.Error + Response.t)
    (request : Request.t) (base host : string) (proxyResponse : Response.t) :
  configured env = Some base ->
  URL_host base = inr host ->
  fetch_outcome (targetUrl base (Request.url request)) (forwarded host request)
  = inr proxyResponse ->
  (Response.status proxyResponse < 200
   \/ 599 < Response.status proxyResponse
   \/ Response.reason_phrase (Response.statusText proxyResponse) = false
   \/ (Response.body proxyResponse <> None
       /\ In (Response.status proxyResponse) [204; 205; 304])) ->
  exists e,
    handle env URL_host fetch_outcome request
    = (inr proxy_failed,
       [log_line base request;
        fetch_call (targetUrl base (Request.url request)) (forwarded host request);
        caught e]).
Proof.
  intros Hc Hh Hf Hr. apply not_relayable, relay_not_relayable in Hr as [e He].
  exists e. rewrite (handle_relayed _ _ _ _ _ _ _ Hc Hh Hf). now rewrite He.
Qed.

Lemma X7_witness :
  configured Scenario.env = Some Scenario.base
  /\ Scenario.URL_host Scenario.base = inr "api.internal:8080"
  /\ Scenario.gatekeeper (targetUrl Scenario.base (Request.url Scenario.get_user))
       (forwarded "api.internal:8080" Scenario.get_user) = inr Scenario.denied
  /\ 599 < Response.status Scenario.denied
  /\ exists e,
       handle Scenario.env Scenario.URL_host Scenario.gatekeeper Scenario.get_user
       = (inr proxy_failed,
          [log_line Scenario.base Scenario.get_user;
           fetch_call (targetUrl Scenario.base (Request.url Scenario.get_user))
             (forwarded "api.internal:8080" Scenario.get_user);
           caught e]).
Proof.
  split; [reflexivity|]. split; [reflexivity|]. split; [reflexivity|]. split; [reflexivity|].
  apply (X7_unrelayable_answered_502 Scenario.env Scenario.URL_host Scenario.gatekeeper
           Scenario.get_user Scenario.base "api.internal:8080" Scenario.denied);
    try reflexivity.
  right. left. reflexivity.
Defined.

(** X8: the relayed headers, name by name.  On a relayed response, asking
    for one of the three skipped names (in any spelling) gives nothing;
    asking for [set-cookie] gives the last [Set-Cookie] value of the
    fetched response; asking for any other name gives what the fetched
    response gives for it. *)
Theorem X8_relayed_headers_by_name
    (env : ProcessEnv) (URL_host : string -> Js.Error + string)
    (fetch_outcome : string -> RequestInit.t -> Js.Error + Response.t)
    (request : Request.t) (base host : string) (proxyResponse : Response.t) :
  configured env = Some base ->
  URL_host base = inr host ->
  fetch_outcome (targetUrl base (Request.url request)) (forwarded host request)
  = inr proxyResponse ->
  relayable proxyResponse = true ->
  exists response trace,
    handle env URL_host fetch_outcome request = (inr response, trace)
    /\ forall name,
         Headers.get (Response.headers response) name
         = if Js.includes ["transfer-encoding"; "connection"; "keep-alive"]
                (Js.toLowerCase name)
           then None
           else if String.eqb (Js.toLowerCase name) "set-cookie"
                then last (Headers.values (Response.headers proxyResponse) name)
                else Headers.get (Response.headers proxyResponse) name.
Proof. apply handle_relayed_headers. Qed.

Lemma X8_witness :
  configured Scenario.env = Some Scenario.base
  /\ Scenario.URL_host Scenario.base = inr "api.internal:8080"
  /\ Scenario.sign_in (targetUrl Scenario.base (Request.url Scenario.post_users))
       (forwarded "api.internal:8080" Scenario.post_users) = inr Scenario.signed_in
  /\ relayable Scenario.signed_in = true
  /\ exists response trace,
       handle Scenario.env Scenario.URL_host Scenario.sign_in Scenario.post_users
       = (inr response, trace)
       /\ forall name,
            Headers.get (Response.headers response) name
            = if Js.includes ["transfer-encoding"; "connection"; "keep-alive"]
                   (Js.toLowerCase name)
              then None
              else if String.eqb (Js.toLowerCase name) "set-cookie"
                   then last (Headers.values (Response.headers Scenario.signed_in) name)
                   else Headers.get (Response.headers Scenario.signed_in) name.
Proof.
  split; [reflexivity|]. split; [reflexivity|]. split; [reflexivity|]. split; [reflexivity|].
  apply (X8_relayed_headers_by_name Scenario.env Scenario.URL_host Scenario.sign_in
           Scenario.post_users Scenario.base "api.internal:8080" Scenario.signed_in);
    reflexivity.
Defined.

Lemma relayed_values r response n :
  relay r = inr response ->
  (length (Headers.values (Response.headers response) n) <= 1)%nat.
Proof.
  intros Hrelay.
  assert (Hok : relayable r = true) by (apply relay_iff_relayable; eauto).
  rewrite (relay_relayable r Hok) in Hrelay. injection Hrelay as <-.
  cbn [Response.headers].
  unfold Headers.fill, Headers.empty. rewrite values_fill_pairs.
  change (Headers.values [] n) with (@nil string). cbn [app].
  rewrite values_sort_and_combine.
  destruct (String.eqb (Js.toLowerCase n) "set-cookie").
  - rewrite values_responseHeaders.
    destruct (Js.includes hop_by_hop (Js.toLowerCase n)); [cbn; lia|].
    destruct (last _); cbn; lia.
  - destruct (Headers.get (responseHeaders r) n); cbn; lia.
Qed.

Lemma append_lowercase (l : Headers.t) k v :
  (forall h, In h l -> Js.toLowerCase (fst h) = fst h) ->
  Js.toLowerCase k = k ->
  forall h, In h (Headers.append l k v) -> Js.toLowerCase (fst h) = fst h.
Proof.
  intros Hl Hk h. unfold Headers.append. rewrite in_app_iff.
  intros [Hin|[<-|[]]]; [now apply Hl|].
  cbn [fst]. destruct (List.find (Headers.name_is k) l) as [h'|] eqn:Hf; [|exact Hk].
  apply List.find_some in Hf as [Hin _]. now apply Hl.
Qed.

Lemma fill_lowercase (pairs : list (string * string)) (l : Headers.t) :
  (forall e, In e pairs -> Js.toLowerCase (fst e) = fst e) ->
  (forall h, In h l -> Js.toLowerCase (fst h) = fst h) ->
  forall h,
    In h (fold_left (fun acc '(name, value) => Headers.append acc name value) pairs l) ->
    Js.toLowerCase (fst h) = fst h.
Proof.
  revert l. induction pairs as [|[k v] pairs IH]; intros l Hp Hl; [exact Hl|].
  cbn [fold_left]. apply IH.
  - intros e He. apply Hp. now right.
  - apply append_lowercase; [exact Hl|]. apply (Hp (k, v)). now left.
Qed.

(** X9: the shape of the relayed header list.  It never holds two headers
    of one name (names compared without regard to case), not even two
    [Set-Cookie] headers, and every name in it is in lower case. *)
Theorem X9_relayed_headers_single_lowercase
    (env : ProcessEnv) (URL_host : string -> Js.Error + string)
    (fetch_outcome : string -> RequestInit.t -> Js.Error + Response.t)
    (request : Request.t) (base host : string) (proxyResponse : Response.t) :
  configured env = Some base ->
  URL_host base = inr host ->
  fetch_outcome (targetUrl base (Request.url request)) (forwarded host request)
  = inr proxyResponse ->
  relayable proxyResponse = true ->
  exists response trace,
    handle env URL_host fetch_outcome request = (inr response, trace)
    /\ (forall name,
          (length (Headers.values (Response.headers response) name) <= 1)%nat)
    /\ (forall h,
          In h (Response.headers response) -> Js.toLowerCase (fst h) = fst h).
Proof.
  intros Hc Hh Hf Hok. rewrite (handle_relayed _ _ _ _ _ _ _ Hc Hh Hf).
  pose proof (relay_relayable _ Hok) as Hr. rewrite Hr.
  eexists _, _. split; [reflexivity|]. split.
  - intros name. now apply (relayed_values proxyResponse).
  - cbn [Response.headers]. unfold Headers.fill.
    apply fill_lowercase; [|intros h []].
    intros e He. now apply (entries_keys_lowercase (responseHeaders proxyResponse)).
Qed.

Lemma X9_witness :
  configured Scenario.env = Some Scenario.base
  /\ Scenario.URL_host Scenario.base = inr "api.internal:8080"
  /\ Scenario.sign_in (targetUrl Scenario.base (Request.url Scenario.post_users))
       (forwarded "api.internal:8080" Scenario.post_users) = inr Scenario.signed_in
  /\ relayable Scenario.signed_in = true
  /\ exists response trace,
       handle Scenario.env Scenario.URL_host Scenario.sign_in Scenario.post_users
       = (inr response, trace)
       /\ (forall name,
             (length (Headers.values (Response.headers response) name) <= 1)%nat)
       /\ (forall h,
             In h (Response.headers response) -> Js.toLowerCase (fst h) = fst h).
Proof.
  split; [reflexivity|]. split; [reflexivity|]. split; [reflexivity|]. split; [reflexivity|].
  apply (X9_relayed_headers_single_lowercase Scenario.env Scenario.URL_host Scenario.sign_in
           Scenario.post_users Scenario.base "api.internal:8080" Scenario.signed_in);
    reflexivity.
Defined.

Lemma sent_of_run env URL_host fetch_outcome request base host :
  configured env = Some base ->
  URL_host base = inr host ->
  map (fun call => RequestInit.sent_bytes (snd call))
    (fetches (snd (handle env URL_host fetch_outcome request)))
  = [RequestInit.sent_bytes (forwarded host request)].
Proof.
  intros Hc Hh. rewrite (handle_configured _ _ _ _ _ Hc). cbn zeta. rewrite Hh.
  destruct (fetch_outcome _ _) as [e|r]; [|destruct (relay r)]; reflexivity.
Qed.

Lemma method_not_GET_HEAD method :
  method <> "GET" -> method <> "HEAD" ->
  String.eqb method "GET" || String.eqb method "HEAD" = false.
Proof.
  intros Hg Hh. apply String.eqb_neq in Hg, Hh. now rewrite Hg, Hh.
Qed.

(** X10: a body that is UTF-8 text goes out byte for byte.  For a method
    other than GET and HEAD, when the inbound body is the UTF-8 encoding
    of a sequence of Unicode scalar values that does not begin with
    U+FEFF, the bytes given to [fetch] are exactly the inbound bytes. *)
Theorem X10_utf8_body_forwarded_unchanged
    (env : ProcessEnv) (URL_host : string -> Js.Error + string)
    (fetch_outcome : string -> RequestInit.t -> Js.Error + Response.t)
    (request : Request.t) (base host : string) (text : Encoding.Text) :
  configured env = Some base ->
  URL_host base = inr host ->
  Request.method request <> "GET" ->
  Request.method request <> "HEAD" ->
  Forall (fun c => Encoding.scalar c = true) text ->
  head text <> Some 0xFEFF ->
  Request.body request = Some (Encoding.utf8_encode text) ->
  map (fun call => RequestInit.sent_bytes (snd call))
    (fetches (snd (handle env URL_host fetch_outcome request)))
  = [Request.body request].
Proof.
  intros Hc Hh Hg Hhd Ht Hbom Hbody.
  rewrite (sent_of_run _ _ _ _ _ _ Hc Hh), forwarded_sent_bytes.
  rewrite (method_not_GET_HEAD _ Hg Hhd), Hbody.
  now rewrite utf8_text_roundtrip.
Qed.

Lemma X10_witness :
  configured Scenario.env = Some Scenario.base
  /\ Scenario.URL_host Scenario.base = inr "api.internal:8080"
  /\ Request.method Scenario.post_users <> "GET"
  /\ Request.method Scenario.post_users <> "HEAD"
  /\ Forall (fun c => Encoding.scalar c = true) [0x7B; 0x7D]
  /\ head [0x7B; 0x7D] <> Some 0xFEFF
  /\ Request.body Scenario.post_users = Some (Encoding.utf8_encode [0x7B; 0x7D])
  /\ map (fun call => RequestInit.sent_bytes (snd call))
       (fetches (snd (handle Scenario.env Scenario.URL_host Scenario.backend
                        Scenario.post_users)))
     = [Request.body Scenario.post_users].
Proof.
  split; [reflexivity|]. split; [reflexivity|].
  split; [discriminate|]. split; [discriminate|].
  split; [repeat constructor|]. split; [discriminate|]. split; [reflexivity|].
  apply (X10_utf8_body_forwarded_unchanged Scenario.env Scenario.URL_host Scenario.backend
           Scenario.post_users Scenario.base "api.internal:8080" [0x7B; 0x7D]);
    try reflexivity; try discriminate.
  repeat constructor.
Defined.



(** X12: which requests go out with a body.  [fetch] gets no body exactly
    when the method is the string GET or the string HEAD; for every other
    method it gets one even when the inbound request has none, and then
    the body is the empty string (no bytes). *)
Theorem X12_body_decided_by_method
    (env : ProcessEnv) (URL_host : string -> Js.Error + string)
    (fetch_outcome : string -> RequestInit.t -> Js.Error + Response.t)
    (request : Request.t) (base host : string) :
  configured env = Some base ->
  URL_host base = inr host ->
  exists init,
    fetches (snd (handle env URL_host fetch_outcome request))
    = [(targetUrl base (Request.url request), init)]
    /\ (RequestInit.body init = None
        <-> Request.method request = "GET" \/ Request.method request = "HEAD")
    /\ (Request.body request = None ->
        Request.method request <> "GET" ->
        Request.method request <> "HEAD" ->
        RequestInit.body init = Some [] /\ RequestInit.sent_bytes init = Some []).
Proof.
  intros Hc Hh. exists (forwarded host request).
  split; [|split].
  - rewrite (fetch_calls_of_run env URL_host fetch_outcome request base Hc), Hh. reflexivity.
  - rewrite forwarded_body.
    destruct (String.eqb_spec (Request.method request) "GET") as [Hg|Hg];
      destruct (String.eqb_spec (Request.method request) "HEAD") as [Hhd|Hhd];
      cbn [orb]; split; intros H; auto; try discriminate H.
    destruct H; contradiction.
  - intros Hbody Hg Hhd.
    unfold RequestInit.sent_bytes. rewrite forwarded_body, (method_not_GET_HEAD _ Hg Hhd).
    unfold Request.text. rewrite Hbody. split; reflexivity.
Qed.

Lemma X12_witness :
  configured Scenario.env = Some Scenario.base
  /\ Scenario.URL_host Scenario.base = inr "api.internal:8080"
  /\ exists init,
       fetches (snd (handle Scenario.env Scenario.URL_host Scenario.backend
                       Scenario.delete_user))
       = [(targetUrl Scenario.base (Request.url Scenario.delete_user), init)]
       /\ (RequestInit.body init = None
           <-> Request.method Scenario.delete_user = "GET"
               \/ Request.method Scenario.delete_user = "HEAD")
       /\ (Request.body Scenario.delete_user = None ->
           Request.method Scenario.delete_user <> "GET" ->
           Request.method Scenario.delete_user <> "HEAD" ->
           RequestInit.body init = Some [] /\ RequestInit.sent_bytes init = Some []).
Proof.
  split; [reflexivity|]. split; [reflexivity|].
  apply (X12_body_decided_by_method Scenario.env Scenario.URL_host Scenario.backend
           Scenario.delete_user Scenario.base "api.internal:8080"); reflexivity.
Defined.

Lemma Route_handler_bound env URL_host fetch_outcome method handler :
  Route_handler env URL_host fetch_outcome method = Some handler ->
  In method ["GET"; "POST"; "PUT"; "PATCH"; "DELETE"; "OPTIONS"]
  /\ handler = proxyRequest env URL_host fetch_outcome.
Proof.
  unfold Route_handler, Route_handlers. cbn [List.find fst].
  intros H.
  destruct (String.eqb_spec "GET" method) as [<-|_];
    [|destruct (String.eqb_spec "POST" method) as [<-|_];
      [|destruct (String.eqb_spec "PUT" method) as [<-|_];
        [|destruct (String.eqb_spec "PATCH" method) as [<-|_];
          [|destruct (String.eqb_spec "DELETE" method) as [<-|_];
            [|destruct (String.eqb_spec "OPTIONS" method) as [<-|_];
              [|discriminate H]]]]]];
    simpl in H; injection H as <-;
    (split; [cbn; repeat ((left; reflexivity) || right) | reflexivity]).
Qed.

(** X13: the route.  The table binds GET, POST, PUT, PATCH, DELETE and
    OPTIONS, each to [proxyRequest], and no other method (HEAD is not
    bound).  So of the requests the route hands over, exactly the GET
    ones are forwarded without body: POST, PUT, PATCH, DELETE and OPTIONS
    requests all give [fetch] the text of their body. *)
Theorem X13_routed_methods
    (env : ProcessEnv) (URL_host : string -> Js.Error + string)
    (fetch_outcome : string -> RequestInit.t -> Js.Error + Response.t)
    (request : Request.t) (base host : string)
    (handler : Request.t -> M Response.t) :
  Route_handler env URL_host fetch_outcome (Request.method request) = Some handler ->
  configured env = Some base ->
  URL_host base = inr host ->
  In (Request.method request) ["GET"; "POST"; "PUT"; "PATCH"; "DELETE"; "OPTIONS"]
  /\ Route_handler env URL_host fetch_outcome "HEAD" = None
  /\ handler request [] = handle env URL_host fetch_outcome request
  /\ map (fun call => RequestInit.body (snd call)) (fetches (snd (handler request [])))
     = [if String.eqb (Request.method request) "GET" then None
        else Some (Request.text request)].
Proof.
  intros Hr Hc Hh. apply Route_handler_bound in Hr as [Hin ->].
  split; [exact Hin|]. split; [reflexivity|]. split; [reflexivity|].
  change (proxyRequest env URL_host fetch_outcome request [])
    with (handle env URL_host fetch_outcome request).
  rewrite (fetch_calls_of_run env URL_host fetch_outcome request base Hc), Hh.
  cbn [map snd]. rewrite forwarded_body. f_equal.
  cbn in Hin. destruct Hin as [<-|[<-|[<-|[<-|[<-|[<-|[]]]]]]]; reflexivity.
Qed.

Lemma X13_witness :
  Route_handler Scenario.env Scenario.URL_host Scenario.backend
    (Request.method Scenario.delete_user)
  = Some (proxyRequest Scenario.env Scenario.URL_host Scenario.backend)
  /\ configured Scenario.env = Some Scenario.base
  /\ Scenario.URL_host Scenario.base = inr "api.internal:8080"
  /\ In (Request.method Scenario.delete_user)
       ["GET"; "POST"; "PUT"; "PATCH"; "DELETE"; "OPTIONS"]
  /\ Route_handler Scenario.env Scenario.URL_host Scenario.backend "HEAD" = None
  /\ proxyRequest Scenario.env Scenario.URL_host Scenario.backend Scenario.delete_user []
     = handle Scenario.env Scenario.URL_host Scenario.backend Scenario.delete_user
  /\ map (fun call => RequestInit.body (snd call))
       (fetches (snd (proxyRequest Scenario.env Scenario.URL_host Scenario.backend
                        Scenario.delete_user [])))
     = [if String.eqb (Request.method Scenario.delete_user) "GET" then None
        else Some (Request.text Scenario.delete_user)].
Proof.
  split; [reflexivity|]. split; [reflexivity|]. split; [reflexivity|].
  apply (X13_routed_methods Scenario.env Scenario.URL_host Scenario.backend
           Scenario.delete_user Scenario.base "api.internal:8080"
           (proxyRequest Scenario.env Scenario.URL_host Scenario.backend)); reflexivity.
Defined.
